(** * TanStack AI: the streaming adapters and the tool-call manager,
      embedded in Rocq.

    The development follows the layout of the repository:
    - [JS]          : the few pieces of JavaScript semantics the code relies on
                      (UTF-16 strings, [split], [trim], [pop], truthiness);
    - [LineReader]  : [readStreamLines], [fetchHttpStream] and
                      [fetchServerSentEvents] of the client's
                      connection adapters;
    - [OpenAI]      : [parseResponsesStream], [processOpenAIStreamChunks] and
                      [chatStream] of the OpenAI adapter;
    - [ToolCalls]   : the tool-call manager, whose implementation
                      ([tools/tool-calls.ts]) is known here through its
                      reference page and the specification only.

    The facts proved about each part follow in [LineReaderFacts],
    [OpenAIFacts] and [ToolCallsFacts]. *)

From Stdlib Require Import NArith Lia.
From stdpp Require Import base option list strings pretty gmap.

Set Default Proof Using "Type".

(* ===================================================================== *)
(** * JavaScript strings and arrays *)
(* ===================================================================== *)

Module JS.

(** A JavaScript string is a sequence of UTF-16 code units. *)
Abbreviation jsstring := (list N).

(** ASCII literals, for readable examples. *)
Definition lit (s : string) : jsstring :=
  (λ a, N.of_nat (Ascii.nat_of_ascii a)) <$> String.list_ascii_of_string s.

Definition NL : N := 10%N.

(** [s.split('\n')]: never empty, the last element is the text after the
    last newline. *)
Fixpoint split_nl (s : jsstring) : list jsstring :=
  match s with
  | [] => [[]]
  | c :: r =>
      if (c =? NL)%N then [] :: split_nl r
      else match split_nl r with
           | [] => [[c]]
           | l :: ls => (c :: l) :: ls
           end
  end.

(** [arr.pop()]: the last element ([undefined] on an empty array) and the
    array that remains. *)
Definition pop {A} (l : list A) : option A * list A := (last l, removelast l).

(** White space and line terminators, as [String.prototype.trim] strips
    them. *)
Definition is_space (c : N) : bool :=
  ((9 <=? c) && (c <=? 13)
   || (c =? 32) || (c =? 160) || (c =? 5760)
   || (8192 <=? c) && (c <=? 8202)
   || (c =? 8232) || (c =? 8233) || (c =? 8239) || (c =? 8287)
   || (c =? 12288) || (c =? 65279))%N.

Fixpoint trim_start (s : jsstring) : jsstring :=
  match s with
  | c :: r => if is_space c then trim_start r else s
  | [] => []
  end.

Definition trim (s : jsstring) : jsstring :=
  reverse (trim_start (reverse (trim_start s))).

(** Truthiness of a string: non-empty. *)
Definition truthy (s : jsstring) : bool :=
  match s with [] => false | _ => true end.

(** [a || b] on strings. *)
Definition or_str (a b : jsstring) : jsstring := if truthy a then a else b.

(** [s.startsWith(p)] and [s.slice(n)]. *)
Fixpoint startsWith (p s : jsstring) : bool :=
  match p, s with
  | [], _ => true
  | a :: p', b :: s' => (a =? b)%N && startsWith p' s'
  | _ :: _, [] => false
  end.

Definition slice_from (n : nat) (s : jsstring) : jsstring := drop n s.

Definition str_eqb (a b : jsstring) : bool := bool_decide (a = b).

End JS.

(* ===================================================================== *)
(** * The connection adapters' line reader *)
(* ===================================================================== *)

Module LineReader.
Import JS.

Section Reader.

(** [TextDecoder] is a platform object.  With [{ stream: true }] it is a
    byte-at-a-time machine: a state (pending bytes of a multi-byte
    sequence, the BOM flag) and, for each byte, the code units it emits. *)
Variable dstate : Type.
Variable dinit : dstate.
Variable dstep : dstate → Byte.byte → dstate * jsstring.

(** [decoder.decode(value, { stream: true })] *)
Fixpoint decode (d : dstate) (value : list Byte.byte) : dstate * jsstring :=
  match value with
  | [] => (d, [])
  | b :: rest =>
      let '(d1, out1) := dstep d b in
      let '(d2, out2) := decode d1 rest in
      (d2, out1 ++ out2)
  end.

(** The text after the last newline of a buffer, and the complete lines
    before it: what [lines.pop()] returns and what it leaves. *)
Definition pending (s : jsstring) : jsstring := default [] (last (split_nl s)).
Definition complete (s : jsstring) : list jsstring := removelast (split_nl s).

(** [if (line.trim()) yield line], over the complete lines of one read. *)
Definition nonblank (line : jsstring) : bool := truthy (trim line).

(** After the loop: [if (buffer.trim()) yield buffer]. *)
Definition flush (buffer : jsstring) : list jsstring :=
  if nonblank buffer then [buffer] else [].

(** The [while (true)] loop of [readStreamLines].  [reads] holds the values
    of the successive [reader.read()] results that are not [done]; the read
    after the last one reports [done].  [aborted k] is
    [abortSignal?.aborted] as seen before the [k]-th read.  The result is
    the sequence of yielded lines. *)
Fixpoint read_loop (aborted : nat → bool) (k : nat)
    (d : dstate) (buffer : jsstring) (reads : list (list Byte.byte))
  : list jsstring :=
  if aborted k then flush buffer
  else
    match reads with
    | [] => flush buffer
    | value :: rest =>
        let '(d', text) := decode d value in
        let buffer1 := buffer ++ text in
        let '(last_line, lines) := pop (split_nl buffer1) in
        let buffer2 := or_str (default [] last_line) [] in
        filter (λ line, nonblank line = true) lines
          ++ read_loop aborted (S k) d' buffer2 rest
    end.

(** The lines of a whole text: its complete lines that are not blank, then
    the pending text if it is not blank. *)
Definition lines_of (text : jsstring) : list jsstring :=
  filter (λ line, nonblank line = true) (complete text) ++ flush (pending text).

(** A signal that never aborts. *)
Definition never : nat → bool := λ _, false.

(** [readStreamLines(reader, abortSignal)]; [abortSignal] is optional. *)
Definition readStreamLines (reads : list (list Byte.byte))
    (abortSignal : option (nat → bool)) : list jsstring :=
  read_loop (default never abortSignal) 0 dinit [] reads.

(** ** The two fetch adapters *)

(** [JSON.parse] on a line: the parsed chunk, or [None] when it throws. *)
Variable StreamChunk : Type.
Variable JSON_parse : jsstring → option StreamChunk.

Record response := {
  ok : bool;
  status : N;
  statusText : jsstring;
  body : option (list (list Byte.byte));   (* [response.body?.getReader()] *)
}.

Inductive connect_error :=
| HttpError (status : N) (statusText : jsstring)
| BodyNotReadable.

(** The part of [fetchHttpStream(...).connect] that follows the fetch. *)
Definition fetchHttpStream_connect (r : response)
    (abortSignal : option (nat → bool)) : connect_error + list StreamChunk :=
  if negb (ok r) then inl (HttpError (status r) (statusText r))
  else match body r with
       | None => inl BodyNotReadable
       | Some reads =>
           inr (omap JSON_parse (readStreamLines reads abortSignal))
       end.

(** One line of the server-sent-events adapter: strip [data: ], skip
    [[DONE]], skip what does not parse. *)
Definition sse_line (line : jsstring) : option StreamChunk :=
  let data := if startsWith (lit "data: ") line then slice_from 6 line else line in
  if str_eqb data (lit "[DONE]") then None else JSON_parse data.

Definition fetchServerSentEvents_connect (r : response)
    (abortSignal : option (nat → bool)) : connect_error + list StreamChunk :=
  if negb (ok r) then inl (HttpError (status r) (statusText r))
  else match body r with
       | None => inl BodyNotReadable
       | Some reads =>
           inr (omap sse_line (readStreamLines reads abortSignal))
       end.

End Reader.

(** A decoder for examples: one byte, one code unit. *)
Definition latin1_step (_ : unit) (b : Byte.byte) : unit * jsstring :=
  (tt, [Byte.to_N b]).

Definition bytes_of (s : string) : list Byte.byte :=
  String.list_byte_of_string s.

Definition nl : string := String (Ascii.ascii_of_nat 10) EmptyString.

(** A stream of two lines and an unfinished third, cut in two ways. *)
Definition sample_reads1 : list (list Byte.byte) :=
  [bytes_of "{a}"; bytes_of (nl +:+ "{b"); bytes_of "}"; bytes_of (nl +:+ "{c")].
Definition sample_reads2 : list (list Byte.byte) :=
  [bytes_of ("{a}" +:+ nl +:+ "{b}"); []; bytes_of (nl +:+ "{"); bytes_of "c"].

(** ** The request of the fetch adapters *)

Section Request.

(** Values typed [any]: the messages, the data and the body fields. *)
Variable any : Type.

(** [customHeaders?: Record<string, string> | Headers].  A [Headers] object
    is known through the pairs its [forEach] visits, in order. *)
Inductive custom_headers :=
| NoHeaders
| HeadersObject (entries : list (string * string))
| HeadersRecord (record : gmap string string).

(** [mergeHeaders(customHeaders)] *)
Definition mergeHeaders (customHeaders : custom_headers) : gmap string string :=
  match customHeaders with
  | NoHeaders => ∅
  | HeadersObject entries =>
      foldl (λ result '(key, value), <[key := value]> result) ∅ entries
  | HeadersRecord record => record
  end.

(** [FetchConnectionOptions]; a body field may hold [undefined]. *)
Record FetchConnectionOptions := {
  opt_headers : custom_headers;
  opt_credentials : option string;
  opt_signal : option string;
  opt_body : option (gmap string (option any));
}.

Record fetch_init := {
  init_method : string;
  init_headers : gmap string string;
  init_body : gmap string (option any);     (* the object given to [JSON.stringify] *)
  init_credentials : string;
  init_signal : option string;
}.

(** The request [connect] sends, in [fetchServerSentEvents] and in
    [fetchHttpStream] alike. *)
Definition request_init (resolvedOptions : FetchConnectionOptions)
    (modelMessages : any) (data : option any) (abortSignal : option string)
  : fetch_init :=
  let requestHeaders :=
    mergeHeaders (opt_headers resolvedOptions)
      ∪ {[ "Content-Type" := "application/json" ]} in
  let requestBody :=
    default ∅ (opt_body resolvedOptions)
      ∪ <["messages" := Some modelMessages]> {[ "data" := data ]} in
  {| init_method := "POST";
     init_headers := requestHeaders;
     init_body := requestBody;
     init_credentials :=
       match opt_credentials resolvedOptions with
       | Some c => if decide (c = "") then "same-origin" else c
       | None => "same-origin"
       end;
     init_signal :=
       match abortSignal with
       | Some s => Some s
       | None => opt_signal resolvedOptions
       end |}.

(** The value a [Headers] object holds for a key: that of the last pair
    visited with the key. *)
Definition last_value (key : string) (entries : list (string * string))
  : option string :=
  snd <$> last (filter (λ e, e.1 = key) entries).

(** What the caller asked to send under a header name. *)
Definition custom_header (h : custom_headers) (key : string) : option string :=
  match h with
  | NoHeaders => None
  | HeadersObject entries => last_value key entries
  | HeadersRecord record => record !! key
  end.

End Request.

(** [line.startsWith('data: ') ? line.slice(6) : line] *)
Definition event_data (line : jsstring) : jsstring :=
  if startsWith (lit "data: ") line then slice_from 6 line else line.

(** A parser for examples: a line that opens a brace stands for itself. *)
Definition ex_parse (s : jsstring) : option jsstring :=
  if startsWith (lit "{") s then Some s else None.

Definition ex_response : response :=
  {| ok := true; status := 200%N; statusText := lit "OK";
     body := Some sample_reads1 |}.

End LineReader.

(* ===================================================================== *)
(** * The OpenAI adapter *)
(* ===================================================================== *)

Module OpenAI.
Import JS.

(** What an async generator has done once it is exhausted: the values it
    yielded, and whether it returned or threw. *)
Inductive completion (E : Type) :=
| Returned
| Threw (e : E).
Arguments Returned {E}.
Arguments Threw {E} e.

Record run (E A : Type) := Run { yielded : list A; completed : completion E }.
Arguments Run {E A} yielded completed.
Arguments yielded {E A} r.
Arguments completed {E A} r.

Section Adapter.

(** Values typed [any] in the source that the adapter only passes on:
    parsed tool arguments and error codes. *)
Variable jsany : Type.
Variable any_truthy : jsany → bool.
Variable JSON_stringify : jsany → jsstring.
Variable empty_object : jsany.

(** A value thrown by the provider stream.  [error.message] and
    [error.code] are read in the [catch] block; on [null] and [undefined]
    the property access itself throws a [TypeError]. *)
Inductive thrown :=
| ThrownObject (message : option jsstring) (code : option jsany)
| ThrownNullish.

(** ** Provider events, as the adapter reads them *)

(** An event is an object whose members have the types below.  An event
    that is [null], or that holds a member of another type where the
    adapter dereferences it, makes the loop body throw a [TypeError]; such
    events are not modelled. *)

Record usage_info := {
  input_tokens : option N;
  prompt_tokens : option N;
  output_tokens : option N;
  completion_tokens : option N;
  total_tokens : option N;
}.

Record response_info := {
  r_id : option jsstring;
  r_model : option jsstring;
  r_usage : option usage_info;
}.

Record content_part := { cp_type : jsstring; cp_text : option jsstring }.

Record output_item := {
  it_type : jsstring;
  it_call_id : option jsstring;
  it_name : option jsstring;
  it_arguments : option jsany;
  it_content : option (list content_part);
  it_status : option jsstring;
}.

Inductive delta_field :=
| DeltaArray (parts : list jsstring)
| DeltaString (s : jsstring).

(** [function.arguments]: a string, or some other value. *)
Definition fn_args : Type := jsstring + jsany.

Record function_delta := {
  fn_name : option jsstring;
  fn_arguments : option fn_args;
}.

Record tool_call_delta := {
  tc_id : option jsstring;
  tc_index : option N;            (* [typeof toolCall.index === "number"] *)
  tc_function : option function_delta;
}.

Record chat_delta := {
  d_content : option jsstring;
  d_tool_calls : option (list tool_call_delta);
}.

Record choice := {
  ch_delta : option chat_delta;
  ch_finish_reason : option jsstring;
}.

Record raw_chunk := {
  c_type : option jsstring;
  c_response : option response_info;
  c_delta : option delta_field;
  c_item : option output_item;
  c_output : option (list output_item);
  c_choices : option (list choice);
  c_id : option jsstring;
  c_model : option jsstring;
  c_usage : option usage_info;
}.

(** ** Stream chunks the adapter yields *)

Record tool_call := {
  call_id : jsstring;
  call_name : jsstring;
  call_arguments : fn_args;
}.

Record usage_out := {
  promptTokens : N;
  completionTokens : N;
  totalTokens : N;
}.

Inductive StreamChunk :=
| ContentChunk (id model : jsstring) (timestamp : N) (delta content : jsstring)
| ToolCallChunk (id model : jsstring) (timestamp : N) (toolCall : tool_call) (index : N)
| DoneChunk (id model : jsstring) (timestamp : N) (finishReason : jsstring)
    (usage : option usage_out)
| ErrorChunk (id model : jsstring) (timestamp : N) (message : jsstring)
    (code : option jsany).

(** ** Truthiness and [||] *)

Definition truthy_o (o : option jsstring) : bool :=
  match o with Some s => truthy s | None => false end.

(** [a || b] with [a] possibly undefined. *)
Definition oor (a : option jsstring) (b : jsstring) : jsstring :=
  match a with Some s => if truthy s then s else b | None => b end.

Definition oor_o (a b : option jsstring) : option jsstring :=
  if truthy_o a then a else b.

(** [a || b || 0] on token counts: [0] and [undefined] are falsy. *)
Definition nor (a : option N) (b : N) : N :=
  match a with Some 0%N | None => b | Some n => n end.

Definition fn_args_truthy (a : fn_args) : bool :=
  match a with inl s => truthy s | inr v => any_truthy v end.

(** ** The tool-call table: a [Map] from call id to [{ index, name }],
    iterated in insertion order *)

Record meta := { index : N; name : jsstring }.

Abbreviation metadata := (list (jsstring * meta)).

Definition map_has (m : metadata) (k : jsstring) : bool :=
  bool_decide (k ∈ m.*1).

Fixpoint map_get (m : metadata) (k : jsstring) : option meta :=
  match m with
  | [] => None
  | (k', v) :: r => if decide (k = k') then Some v else map_get r k
  end.

(** [Map.prototype.set]: a new key goes last, an old key keeps its place. *)
Fixpoint map_set (m : metadata) (k : jsstring) (v : meta) : metadata :=
  match m with
  | [] => [(k, v)]
  | (k', v') :: r =>
      if decide (k = k') then (k, v) :: r else (k', v') :: map_set r k v
  end.

(** [Array.from(m.entries())[i]] *)
Definition map_entry (m : metadata) (i : N) : option (jsstring * meta) :=
  m !! N.to_nat i.

(** ** State of [processOpenAIStreamChunks] *)

(** [generateId()] and [Date.now()] are effects: the [k]-th call of each
    returns [generateId k] and [Date_now k]. *)
Variable generateId : nat → jsstring.
Variable Date_now : nat → N.
Variable options_model : option jsstring.

Record pstate := {
  accumulatedContent : jsstring;
  timestamp : N;
  nextIndex : N;
  chunkCount : nat;
  responseId : option jsstring;
  model : option jsstring;
  toolCallMetadata : metadata;
  ids_made : nat;           (* calls of [generateId] so far *)
  clock_reads : nat;        (* calls of [Date.now] so far *)
}.

(** The state at the first line of the generator's body, given the table
    of [chatStream] and the counters of the two effects. *)
Definition start (tbl : metadata) (ids clock : nat) : pstate :=
  {| accumulatedContent := [];
     timestamp := Date_now clock;
     nextIndex := 0;
     chunkCount := 0;
     responseId := None;
     model := None;
     toolCallMetadata := tbl;
     ids_made := ids;
     clock_reads := S clock |}.

(** A state with nothing in it. *)
Definition blank : pstate :=
  {| accumulatedContent := []; timestamp := 0; nextIndex := 0;
     chunkCount := 0; responseId := None; model := None;
     toolCallMetadata := []; ids_made := 0; clock_reads := 0 |}.

Definition set_accumulated (st : pstate) (s : jsstring) : pstate :=
  {| accumulatedContent := s; timestamp := timestamp st;
     nextIndex := nextIndex st; chunkCount := chunkCount st;
     responseId := responseId st; model := model st;
     toolCallMetadata := toolCallMetadata st;
     ids_made := ids_made st; clock_reads := clock_reads st |}.

Definition set_response (st : pstate) (rid rmodel : option jsstring) : pstate :=
  {| accumulatedContent := accumulatedContent st; timestamp := timestamp st;
     nextIndex := nextIndex st; chunkCount := chunkCount st;
     responseId := rid; model := rmodel;
     toolCallMetadata := toolCallMetadata st;
     ids_made := ids_made st; clock_reads := clock_reads st |}.

Definition set_table (st : pstate) (tbl : metadata) (next : N) : pstate :=
  {| accumulatedContent := accumulatedContent st; timestamp := timestamp st;
     nextIndex := next; chunkCount := chunkCount st;
     responseId := responseId st; model := model st;
     toolCallMetadata := tbl;
     ids_made := ids_made st; clock_reads := clock_reads st |}.

Definition set_counters (st : pstate) (ids clock : nat) : pstate :=
  {| accumulatedContent := accumulatedContent st; timestamp := timestamp st;
     nextIndex := nextIndex st; chunkCount := chunkCount st;
     responseId := responseId st; model := model st;
     toolCallMetadata := toolCallMetadata st;
     ids_made := ids; clock_reads := clock |}.

Definition bump_chunkCount (st : pstate) : pstate :=
  {| accumulatedContent := accumulatedContent st; timestamp := timestamp st;
     nextIndex := nextIndex st; chunkCount := S (chunkCount st);
     responseId := responseId st; model := model st;
     toolCallMetadata := toolCallMetadata st;
     ids_made := ids_made st; clock_reads := clock_reads st |}.

(** [responseId || chunk.id || generateId()]: [generateId] runs only when
    both are falsy. *)
Definition chunk_id (st : pstate) (chunk : raw_chunk) : jsstring * pstate :=
  match oor_o (responseId st) (c_id chunk) with
  | Some s => if truthy s then (s, st)
              else (generateId (ids_made st),
                    set_counters st (S (ids_made st)) (clock_reads st))
  | None => (generateId (ids_made st),
             set_counters st (S (ids_made st)) (clock_reads st))
  end.

(** [model || chunk.model || options.model || "gpt-4o"] *)
Definition chunk_model (st : pstate) (chunk : raw_chunk) : jsstring :=
  oor (oor_o (oor_o (model st) (c_model chunk)) options_model) (lit "gpt-4o").

(** ** One provider event: the locals [delta] and [finishReason] *)

Definition content_delta (s : jsstring) : chat_delta :=
  {| d_content := Some s; d_tool_calls := None |}.

(** [delta = delta || {}; delta.tool_calls = calls] *)
Definition with_tool_calls (delta : option chat_delta)
    (calls : list tool_call_delta) : option chat_delta :=
  Some {| d_content := delta ≫= d_content; d_tool_calls := Some calls |}.

(** [value || {}] *)
Definition any_or_empty (v : option jsany) : jsany :=
  match v with
  | Some v => if any_truthy v then v else empty_object
  | None => empty_object
  end.

(** The tool call built from a [function_call] output item. *)
Definition function_call_delta (item : output_item) : tool_call_delta :=
  {| tc_id := it_call_id item;
     tc_index := None;
     tc_function :=
       Some {| fn_name := it_name item;
               fn_arguments :=
                 Some (inl (JSON_stringify (any_or_empty (it_arguments item)))) |} |}.

(** [content.find(c => c.type === "output_text")?.text], when truthy. *)
Definition output_text (content : list content_part) : option jsstring :=
  match List.find (λ c, str_eqb (cp_type c) (lit "output_text")) content with
  | Some c => if truthy_o (cp_text c) then cp_text c else None
  | None => None
  end.

Definition is_type (t : string) (item : output_item) : bool :=
  str_eqb (it_type item) (lit t).

(** A status that names a completion: truthy and not ["in_progress"]. *)
Definition finished_status (status : option jsstring) : bool :=
  truthy_o status && negb (str_eqb (default [] status) (lit "in_progress")).

(** The branch [if (chunk.type)]: an event of the Responses API. *)
Definition responses_event (st : pstate) (eventType : jsstring) (chunk : raw_chunk)
  : pstate * option chat_delta * option jsstring :=
  let st1 := match c_response chunk with
             | Some r => set_response st (r_id r) (r_model r)
             | None => st
             end in
  let delta1 : option chat_delta :=
    if str_eqb eventType (lit "response.output_text.delta") then
      match c_delta chunk with
      | Some (DeltaArray parts) =>
          let textDelta := concat parts in
          if truthy textDelta then Some (content_delta textDelta) else None
      | Some (DeltaString s) =>
          if truthy s then Some (content_delta s) else None
      | None => None
      end
    else None in
  let '(delta2, finish2) :=
    if str_eqb eventType (lit "response.output_item.added") then
      match c_item chunk with
      | Some item =>
          if is_type "function_call" item then
            (with_tool_calls delta1 [function_call_delta item], None)
          else if is_type "message" item then
            let delta' :=
              match it_content item ≫= output_text with
              | Some newContent =>
                  let acc := accumulatedContent st1 in
                  if (length acc <? length newContent) || negb (truthy acc)
                  then Some (content_delta newContent)
                  else
                    let deltaText := slice_from (length acc) newContent in
                    if truthy deltaText then Some (content_delta deltaText)
                    else delta1
              | None => delta1
              end in
            (delta',
             if finished_status (it_status item) then it_status item else None)
          else (delta1, None)
      | None => (delta1, None)
      end
    else (delta1, None) in
  let finish3 :=
    if str_eqb eventType (lit "response.done") then Some (lit "stop")
    else finish2 in
  (st1, delta2, finish3).

(** The branch [else if (chunk.output && Array.isArray(chunk.output))]. *)
Definition legacy_output (output : list output_item)
  : option chat_delta * option jsstring :=
  let messageItem : option output_item :=
    List.find (is_type "message") output in
  let functionCallItems : list output_item :=
    List.filter (is_type "function_call") output in
  let delta1 : option chat_delta :=
    match (messageItem ≫= it_content) ≫= output_text with
    | Some text => Some (content_delta text)
    | None => None
    end in
  let delta2 : option chat_delta :=
    match functionCallItems with
    | [] => delta1
    | _ :: _ => with_tool_calls delta1 (function_call_delta <$> functionCallItems)
    end in
  let finish : option jsstring :=
    if truthy_o (messageItem ≫= it_status) then messageItem ≫= it_status
    else None in
  (delta2, finish).

(** The branch [else if (chunk.choices)]: Chat Completions. *)
Definition chat_completions (choices : list choice)
  : option chat_delta * option jsstring :=
  (head choices ≫= ch_delta, head choices ≫= ch_finish_reason).

Definition classify (st : pstate) (chunk : raw_chunk)
  : pstate * option chat_delta * option jsstring :=
  if truthy_o (c_type chunk) then
    responses_event st (default [] (c_type chunk)) chunk
  else match c_output chunk with
       | Some output =>
           let '(delta, finish) := legacy_output output in (st, delta, finish)
       | None =>
           match c_choices chunk with
           | Some choices =>
               let '(delta, finish) := chat_completions choices in
               (st, delta, finish)
           | None => (st, None, None)
           end
       end.

(** ** What one provider event makes the adapter yield *)

(** [if (delta?.content)] *)
Definition handle_content (st : pstate) (chunk : raw_chunk)
    (delta : option chat_delta) : pstate * list StreamChunk :=
  match delta ≫= d_content with
  | Some text =>
      if truthy text then
        let st1 := set_accumulated st (accumulatedContent st ++ text) in
        let '(cid, st2) := chunk_id st1 chunk in
        (st2, [ContentChunk cid (chunk_model st2 chunk) (timestamp st2)
                 text (accumulatedContent st2)])
      else (st, [])
  | None => (st, [])
  end.

(** [typeof args === "string" ? args : JSON.stringify(args || {})] *)
Definition first_arguments (fn : option function_delta) : jsstring :=
  match fn ≫= fn_arguments with
  | Some (inl s) => s
  | Some (inr v) => JSON_stringify (any_or_empty (Some v))
  | None => JSON_stringify empty_object
  end.

(** [toolCall.function?.arguments || ""] *)
Definition later_arguments (fn : option function_delta) : fn_args :=
  match fn ≫= fn_arguments with
  | Some a => if fn_args_truthy a then a else inl []
  | None => inl []
  end.

(** [`call_${Date.now()}`] *)
Definition fallback_id (now : N) : jsstring := lit "call_" ++ lit (pretty now).

(** The body of [for (const toolCall of delta.tool_calls)] up to the
    [yield]: the call to report, its index, and the table afterwards. *)
Definition resolve_tool_call (st : pstate) (toolCall : tool_call_delta)
  : pstate * tool_call * N :=
  let fn := tc_function toolCall in
  if truthy_o (tc_id toolCall) then
    let toolCallId := default [] (tc_id toolCall) in
    let toolCallName := oor (fn ≫= fn_name) [] in
    let toolCallArgs := first_arguments fn in
    let st1 :=
      if map_has (toolCallMetadata st) toolCallId then st
      else set_table st
             (map_set (toolCallMetadata st) toolCallId
                {| index := nextIndex st; name := toolCallName |})
             (nextIndex st + 1) in
    let m := default {| index := nextIndex st; name := toolCallName |}
               (map_get (toolCallMetadata st1) toolCallId) in
    (st1,
     {| call_id := toolCallId; call_name := toolCallName;
        call_arguments := inl toolCallArgs |},
     index m)
  else
    let openAIIndex := default 0%N (tc_index toolCall) in
    match map_entry (toolCallMetadata st) openAIIndex with
    | Some (id, m) =>
        (st,
         {| call_id := id; call_name := name m;
            call_arguments := later_arguments fn |},
         index m)
    | None =>
        (set_counters st (ids_made st) (S (clock_reads st)),
         {| call_id := fallback_id (Date_now (clock_reads st));
            call_name := []; call_arguments := inl [] |},
         openAIIndex)
    end.

Definition handle_tool_call (st : pstate) (chunk : raw_chunk)
    (toolCall : tool_call_delta) : pstate * StreamChunk :=
  let '(st1, call, actualIndex) := resolve_tool_call st toolCall in
  let '(cid, st2) := chunk_id st1 chunk in
  (st2, ToolCallChunk cid (chunk_model st2 chunk) (timestamp st2) call actualIndex).

Fixpoint handle_tool_calls (st : pstate) (chunk : raw_chunk)
    (calls : list tool_call_delta) : pstate * list StreamChunk :=
  match calls with
  | [] => (st, [])
  | toolCall :: rest =>
      let '(st1, out1) := handle_tool_call st chunk toolCall in
      let '(st2, out2) := handle_tool_calls st1 chunk rest in
      (st2, out1 :: out2)
  end.

Definition map_usage (u : usage_info) : usage_out :=
  {| promptTokens := nor (input_tokens u) (nor (prompt_tokens u) 0);
     completionTokens := nor (output_tokens u) (nor (completion_tokens u) 0);
     totalTokens := nor (total_tokens u) 0 |}.

(** [if (finishReason && finishReason !== "in_progress")] *)
Definition handle_finish (st : pstate) (chunk : raw_chunk)
    (finishReason : option jsstring) : pstate * list StreamChunk :=
  if finished_status finishReason then
    let usage :=
      match c_response chunk ≫= r_usage with
      | Some u => Some u
      | None => c_usage chunk
      end in
    let '(cid, st1) := chunk_id st chunk in
    (st1, [DoneChunk cid (chunk_model st1 chunk) (timestamp st1)
             (default [] finishReason) (map_usage <$> usage)])
  else (st, []).

(** The body of [for await (const chunk of stream)]. *)
Definition process_chunk (st : pstate) (chunk : raw_chunk)
  : pstate * list StreamChunk :=
  let '(st1, delta, finishReason) := classify (bump_chunkCount st) chunk in
  let '(st2, out1) := handle_content st1 chunk delta in
  let '(st3, out2) :=
    match delta ≫= d_tool_calls with
    | Some calls => handle_tool_calls st2 chunk calls
    | None => (st2, [])
    end in
  let '(st4, out3) := handle_finish st3 chunk finishReason in
  (st4, out1 ++ out2 ++ out3).

Fixpoint process_chunks (st : pstate) (chunks : list raw_chunk)
  : pstate * list StreamChunk :=
  match chunks with
  | [] => (st, [])
  | chunk :: rest =>
      let '(st1, out1) := process_chunk st chunk in
      let '(st2, out2) := process_chunks st1 rest in
      (st2, out1 ++ out2)
  end.

(** The [catch (error: any)] block.  Reading [error.message] of [null] or
    [undefined] throws; [type_error] is the error the engine raises then. *)
Variable type_error : thrown.

Definition on_error (st : pstate) (error : thrown) : run thrown StreamChunk :=
  match error with
  | ThrownObject message code =>
      Run [ErrorChunk (generateId (ids_made st))
             (oor options_model (lit "gpt-3.5-turbo"))
             (timestamp st)
             (oor message (lit "Unknown error occurred"))
             code]
          Returned
  | ThrownNullish => Run [] (Threw type_error)
  end.

(** [processOpenAIStreamChunks(stream, toolCallMetadata, options, generateId)]:
    [stream] is what the upstream iterable does when it is drained. *)
Definition processOpenAIStreamChunks (stream : run thrown raw_chunk)
    (tbl : metadata) (ids clock : nat) : run thrown StreamChunk :=
  let '(st, out) := process_chunks (start tbl ids clock) (yielded stream) in
  match completed stream with
  | Returned => Run out Returned
  | Threw error =>
      let r := on_error st error in
      Run (out ++ yielded r) (completed r)
  end.

(** ** The table as the events determine it *)

(** The tool calls an event carries: the [delta.tool_calls] the loop body
    iterates over.  (It does not depend on the state; see
    [classify_tool_calls] below.) *)
Definition chunk_tool_calls (chunk : raw_chunk) : list tool_call_delta :=
  default [] ((classify blank chunk).1.2 ≫= d_tool_calls).

(** A tool call that carries an id is a sighting of that id, under the
    name it carries. *)
Definition sighting (toolCall : tool_call_delta) : option (jsstring * jsstring) :=
  if truthy_o (tc_id toolCall)
  then Some (default [] (tc_id toolCall), oor (tc_function toolCall ≫= fn_name) [])
  else None.

Definition sightings (events : list raw_chunk) : list (jsstring * jsstring) :=
  omap sighting (events ≫= chunk_tool_calls).

(** The lookup table built on first sighting: an id seen for the first
    time is registered under the next free index with the name it came
    with; an id seen again changes nothing. *)
Definition register (tbl : metadata) (s : jsstring * jsstring) : metadata :=
  if map_has tbl s.1 then tbl
  else tbl ++ [(s.1, {| index := N.of_nat (length tbl); name := s.2 |})].

Definition first_sighting_table (seen : list (jsstring * jsstring)) : metadata :=
  foldl register [] seen.

(** What one tool-call delta does to the table: a delta with an id is a
    sighting, a delta without one leaves the table alone. *)
Definition after_call (tbl : metadata) (toolCall : tool_call_delta) : metadata :=
  match sighting toolCall with
  | Some s => register tbl s
  | None => tbl
  end.

(** The counter is the size of the table. *)
Definition synced (st : pstate) : Prop :=
  nextIndex st = N.of_nat (length (toolCallMetadata st)).

(** In a table built by [register], the entry at position [k] carries
    index [k]. *)
Definition indexed (tbl : metadata) : Prop :=
  ∀ k id m, tbl !! k = Some (id, m) → index m = N.of_nat k.

(** Only ids that are truthy are registered, and each once. *)
Definition well_keyed (tbl : metadata) : Prop :=
  NoDup tbl.*1 ∧ Forall (λ k, truthy k = true) tbl.*1.

(** A Chat Completions chunk that carries tool-call deltas only. *)
Definition tool_call_chunk (cid cmodel : option jsstring)
    (calls : list tool_call_delta) : raw_chunk :=
  {| c_type := None; c_response := None; c_delta := None; c_item := None;
     c_output := None;
     c_choices := Some [ {| ch_delta := Some {| d_content := None;
                                                d_tool_calls := Some calls |};
                            ch_finish_reason := None |} ];
     c_id := cid; c_model := cmodel; c_usage := None |}.

(** A delta addressed by index only. *)
Definition index_only (i : N) (fn : option function_delta) : tool_call_delta :=
  {| tc_id := None; tc_index := Some i; tc_function := fn |}.

(** A delta that repeats the id, at whatever index. *)
Definition with_id (id : jsstring) (j : option N) (fn : option function_delta)
  : tool_call_delta :=
  {| tc_id := Some id; tc_index := j; tc_function := fn |}.

Definition is_error_chunk (c : StreamChunk) : bool :=
  match c with ErrorChunk _ _ _ _ _ => true | _ => false end.

(** ** [parseResponsesStream] and [chatStream] *)

Variable dstate : Type.
Variable dinit : dstate.
Variable dstep : dstate → Byte.byte → dstate * jsstring.
Variable JSON_parse : jsstring → option raw_chunk.

(** How the raw byte stream ends: [reader.read()] reports [done], or
    rejects. *)
Inductive read_end :=
| EndOfStream
| ReadThrows (e : thrown).

(** [JSON.parse(line.trim())] for the lines that are not blank; a line that
    does not parse is skipped. *)
Definition parse_line (line : jsstring) : option raw_chunk :=
  let trimmed := trim line in
  if truthy trimmed then JSON_parse trimmed else None.

Fixpoint parse_loop (d : dstate) (buffer : jsstring)
    (reads : list (list Byte.byte)) (fin : read_end) : run thrown raw_chunk :=
  match reads with
  | [] =>
      match fin with
      | EndOfStream => Run (option_list (parse_line buffer)) Returned
      | ReadThrows e => Run [] (Threw e)
      end
  | value :: rest =>
      let '(d', text) := LineReader.decode dstate dstep d value in
      let '(last_line, lines) := pop (split_nl (buffer ++ text)) in
      let r := parse_loop d' (or_str (default [] last_line) []) rest fin in
      Run (omap parse_line lines ++ yielded r) (completed r)
  end.

Definition parseResponsesStream (reads : list (list Byte.byte)) (fin : read_end)
  : run thrown raw_chunk :=
  parse_loop dinit [] reads fin.

(** What the parser has yielded of a decoded text when the raw stream ends
    or fails: the events of the lines of the text, the pending last line
    included only when the stream ended. *)
Definition parsed (text : jsstring) (fin : read_end) : list raw_chunk :=
  match fin with
  | EndOfStream => omap parse_line (split_nl text)
  | ReadThrows _ => omap parse_line (LineReader.complete text)
  end.

(** [chatStream(options)].  [created] is the outcome of
    [await this.client.responses.create(...)], which runs before the
    generator enters any [try]: either it throws, or it gives the raw
    stream. *)
Definition chatStream (created : thrown + list (list Byte.byte) * read_end)
    (ids clock : nat) : run thrown StreamChunk :=
  match created with
  | inl e => Run [] (Threw e)
  | inr (reads, fin) =>
      processOpenAIStreamChunks (parseResponsesStream reads fin) [] ids clock
  end.

(** ** [chatCompletion]: the reply that is not streamed *)

Record api_response := {
  resp_id : jsstring;
  resp_model : jsstring;
  resp_output : list output_item;
  resp_usage : option usage_info;
}.

Record result_tool_call := {
  rtc_id : option jsstring;
  rtc_name : option jsstring;
  rtc_arguments : option jsstring;     (* [JSON.stringify(undefined)] is [undefined] *)
}.

Record ChatCompletionResult := {
  res_id : jsstring;
  res_model : jsstring;
  res_content : jsstring;
  res_finishReason : option jsstring;
  res_toolCalls : option (list result_tool_call);
  res_usage : usage_out;
}.

(** [messageItem?.content?.[0].type === "output_text"
      ? messageItem?.content?.[0]?.text || "" : ""].
    The chain stops at a missing item or a missing [content]; on an empty
    [content] array [[0]] is [undefined] and reading its [type] throws. *)
Definition first_text (messageItem : option output_item) : thrown + jsstring :=
  match messageItem ≫= it_content with
  | None => inr []
  | Some [] => inl type_error
  | Some (c :: _) =>
      inr (if str_eqb (cp_type c) (lit "output_text") then oor (cp_text c) [] else [])
  end.

Definition result_call (fc : output_item) : result_tool_call :=
  {| rtc_id := it_call_id fc; rtc_name := it_name fc;
     rtc_arguments := JSON_stringify <$> it_arguments fc |}.

(** [mapOpenAIResponseToChatResult(response)] *)
Definition mapOpenAIResponseToChatResult (response : api_response)
  : thrown + ChatCompletionResult :=
  let outputItems := resp_output response in
  let messageItem : option output_item :=
    List.find (is_type "message") outputItems in
  match first_text messageItem with
  | inl e => inl e
  | inr content =>
      let functionCalls : list output_item :=
        List.filter (is_type "function_call") outputItems in
      let toolCalls :=
        match functionCalls with
        | [] => None
        | _ :: _ => Some (result_call <$> functionCalls)
        end in
      inr {| res_id := resp_id response;
             res_model := resp_model response;
             res_content := content;
             res_finishReason := messageItem ≫= it_status;
             res_toolCalls := toolCalls;
             res_usage :=
               {| promptTokens := nor (resp_usage response ≫= input_tokens) 0;
                  completionTokens := nor (resp_usage response ≫= output_tokens) 0;
                  totalTokens := nor (resp_usage response ≫= total_tokens) 0 |} |}
  end.

(** [chatCompletion(options)]: [created] is the outcome of the request. *)
Definition chatCompletion (created : thrown + api_response)
  : thrown + ChatCompletionResult :=
  match created with
  | inl e => inl e
  | inr response => mapOpenAIResponseToChatResult response
  end.

(** ** [generateImage] *)

(** [atob]: the decoded binary string, or [None] when it throws. *)
Variable atob : jsstring → option jsstring.
Variable atob_error : thrown.

(** [\w] *)
Definition is_word (c : N) : bool :=
  ((48 <=? c) && (c <=? 57) || (65 <=? c) && (c <=? 90)
   || (97 <=? c) && (c <=? 122) || (c =? 95))%N.

Fixpoint take_word (s : jsstring) : jsstring :=
  match s with
  | c :: r => if is_word c then c :: take_word r else []
  | [] => []
  end.

(** [base64.replace(/^data:image\/\w+;base64,/, "")] *)
Definition strip_data_url (s : jsstring) : jsstring :=
  if startsWith (lit "data:image/") s then
    let r := slice_from 11 s in
    let w := take_word r in
    let r' := slice_from (length w) r in
    if truthy w && startsWith (lit ";base64,") r' then slice_from 8 r' else s
  else s.

(** [base64ToUint8Array(base64)]: one byte per character of the decoded
    string. *)
Definition base64ToUint8Array (base64 : jsstring) : thrown + list N :=
  match atob (strip_data_url base64) with
  | None => inl atob_error
  | Some binaryString => inr ((λ c, c mod 256)%N <$> binaryString)
  end.

Record ImageData := {
  base64 : jsstring;
  uint8Array : list N;
  mediaType : jsstring;
}.

Record image_request := {
  rq_model : jsstring;
  rq_prompt : jsstring;
  rq_n : Z;
  rq_size : option jsstring;
  rq_seed : option N;
  rq_response_format : jsstring;
  rq_extra : list (jsstring * jsany);
}.

(** [options.providerOptions]: the fields of the request it sets, and the
    other keys it carries. *)
Record image_provider_options := {
  po_model : option jsstring;
  po_prompt : option jsstring;
  po_n : option Z;
  po_size : option jsstring;
  po_seed : option N;
  po_response_format : option jsstring;
  po_extra : list (jsstring * jsany);
}.

Record ImageGenerationOptions := {
  io_model : jsstring;
  io_prompt : jsstring;
  io_n : option N;
  io_maxImagesPerCall : option N;
  io_size : option jsstring;
  io_seed : option N;
  io_providerOptions : option image_provider_options;
}.

(** [this.client.images.generate]: what the [k]-th call gives for a
    request: an exception, or a response whose optional [data] lists
    images with an optional [b64_json]. *)
Variable images_generate :
  nat → image_request → thrown + option (list (option jsstring)).

Definition numImages (o : ImageGenerationOptions) : Z := Z.of_N (nor (io_n o) 1).

Definition maxPerCall (o : ImageGenerationOptions) : Z :=
  Z.of_N (nor (io_maxImagesPerCall o)
            (if str_eqb (io_model o) (lit "dall-e-3") then 1 else 10)).

(** [Math.ceil(numImages / maxPerCall)] *)
Definition numCalls (o : ImageGenerationOptions) : nat :=
  Z.to_nat ((numImages o + maxPerCall o - 1) / maxPerCall o).

(** [Object.assign(requestParams, providerOptions)] *)
Definition assign (rq : image_request) (po : image_provider_options) : image_request :=
  {| rq_model := default (rq_model rq) (po_model po);
     rq_prompt := default (rq_prompt rq) (po_prompt po);
     rq_n := default (rq_n rq) (po_n po);
     rq_size := match po_size po with Some v => Some v | None => rq_size rq end;
     rq_seed := match po_seed po with Some v => Some v | None => rq_seed rq end;
     rq_response_format := default (rq_response_format rq) (po_response_format po);
     rq_extra := po_extra po |}.

Definition request_params (o : ImageGenerationOptions) (imagesThisCall : Z)
  : image_request :=
  let rq :=
    {| rq_model := io_model o;
       rq_prompt := io_prompt o;
       rq_n := imagesThisCall;
       rq_size := if truthy_o (io_size o) then io_size o else None;
       rq_seed :=
         match io_seed o with
         | Some seed =>
             if negb (seed =? 0)%N && str_eqb (io_model o) (lit "dall-e-3")
             then Some seed else None
         | None => None
         end;
       rq_response_format := lit "b64_json";
       rq_extra := [] |} in
  match io_providerOptions o with
  | Some po => assign rq po
  | None => rq
  end.

(** [for (const image of response.data) if (image.b64_json) ... push] *)
Fixpoint add_images (data : list (option jsstring)) (allImages : list ImageData)
  : thrown + list ImageData :=
  match data with
  | [] => inr allImages
  | image :: rest =>
      if truthy_o image then
        let b64 := default [] image in
        match base64ToUint8Array b64 with
        | inl e => inl e
        | inr bytes =>
            add_images rest
              (allImages ++ [ {| base64 := lit "data:image/png;base64," ++ b64;
                                 uint8Array := bytes;
                                 mediaType := lit "image/png" |} ])
        end
      else add_images rest allImages
  end.

(** The batched calls: [remaining] more iterations, the next one being the
    [k]-th call.  The result comes with the requests that were sent. *)
Fixpoint image_calls (o : ImageGenerationOptions) (remaining k : nat)
    (allImages : list ImageData)
  : list image_request * (thrown + list ImageData) :=
  match remaining with
  | O => ([], inr allImages)
  | S remaining' =>
      let imagesThisCall :=
        Z.min (maxPerCall o) (numImages o - Z.of_nat (length allImages)) in
      let rq := request_params o imagesThisCall in
      match images_generate k rq with
      | inl e => ([rq], inl e)
      | inr response_data =>
          match add_images (default [] response_data) allImages with
          | inl e => ([rq], inl e)
          | inr allImages' =>
              let '(sent, r) := image_calls o remaining' (S k) allImages' in
              (rq :: sent, r)
          end
      end
  end.

Inductive image_payload :=
| OneImage (image : option ImageData)       (* [{ image: allImages[0] }] *)
| ManyImages (images : list ImageData).     (* [{ images: allImages }] *)

Record ImageGenerationResult := {
  payload : image_payload;
  providerMetadata_images : option nat;   (* [providerMetadata.openai.images.length] *)
  response_id : jsstring;
  response_model : jsstring;
  response_timestamp : N;
}.

(** [generateImage(options)], with the requests it sent. *)
Definition generateImage (o : ImageGenerationOptions) (ids clock : nat)
  : list image_request * (thrown + ImageGenerationResult) :=
  let '(sent, r) := image_calls o (numCalls o) 0 [] in
  match r with
  | inl e => (sent, inl e)
  | inr allImages =>
      (sent,
       inr {| payload :=
                if (numImages o =? 1)%Z then OneImage (head allImages)
                else ManyImages allImages;
              providerMetadata_images :=
                match io_providerOptions o with
                | Some _ => Some (length allImages)
                | None => None
                end;
              response_id := generateId ids;
              response_model := io_model o;
              response_timestamp := Date_now clock |})
  end.

(** The number of images asked for over a list of requests. *)
Definition total_requested (sent : list image_request) : Z :=
  foldr (λ rq acc, rq_n rq + acc)%Z 0%Z sent.

(** The id and the name of the tool calls of a reply, and of the tool-call
    deltas of a streamed event. *)
Definition call_names (calls : list result_tool_call)
  : list (option jsstring * option jsstring) :=
  (λ c, (rtc_id c, rtc_name c)) <$> calls.

Definition delta_names (calls : list tool_call_delta)
  : list (option jsstring * option jsstring) :=
  (λ c, (tc_id c, tc_function c ≫= fn_name)) <$> calls.

(** An image API that gives what it is asked for: every call returns as
    many images as the request's [n], each with a base64 text that [atob]
    decodes. *)
Definition delivers : Prop :=
  ∀ k rq, ∃ data,
    images_generate k rq = inr (Some data)
    ∧ length data = Z.to_nat (rq_n rq)
    ∧ Forall (λ image, ∃ b64, image = Some b64 ∧ truthy b64 = true
                              ∧ is_Some (atob (strip_data_url b64))) data.

(** The function calls an event announces, read off its fields: for an
    event of the Responses API, one if it is [response.output_item.added]
    with an item of type [function_call]; for an event with an [output]
    array, its items of type [function_call]; for a Chat Completions
    event, the entries of [choices[0].delta.tool_calls]. *)
Definition function_calls (chunk : raw_chunk) : nat :=
  if truthy_o (c_type chunk) then
    if str_eqb (default [] (c_type chunk)) (lit "response.output_item.added")
    then match c_item chunk with
         | Some item => if is_type "function_call" item then 1 else 0
         | None => 0
         end
    else 0
  else
    match c_output chunk with
    | Some output => length (List.filter (is_type "function_call") output)
    | None =>
        match c_choices chunk with
        | Some choices =>
            length (default [] ((head choices ≫= ch_delta) ≫= d_tool_calls))
        | None => 0
        end
    end.

End Adapter.

(** The tool-call argument text a consumer has received for [id]: the
    string fragments of the [tool_call] chunks that name it, in order. *)
(** The table and the counter, which only [resolve_tool_call] changes. *)
Definition registry (st : pstate) : list (jsstring * meta) * N :=
  (toolCallMetadata st, nextIndex st).

Definition fragment_for {jsany} (id : jsstring) (c : StreamChunk jsany)
  : option jsstring :=
  match c with
  | ToolCallChunk _ _ _ _ call _ =>
      if decide (call_id _ call = id) then
        match call_arguments _ call with
        | inl s => Some s
        | inr _ => None
        end
      else None
  | _ => None
  end.

Definition arguments_for {jsany} (id : jsstring)
    (chunks : list (StreamChunk jsany)) : jsstring :=
  concat (omap (fragment_for id) chunks).

(** What it means for the adapter, in state [st] and having yielded [out],
    to report the event [chunk] as a fragment [frag] of the call [id]: it
    yields one [tool_call] chunk with that id, the given name and index and
    the fragment as arguments; the table stays as it is; the argument text
    received for [id] grows by the fragment. *)
Definition reports {jsany}
    (process_chunk : pstate → raw_chunk jsany → pstate * list (StreamChunk jsany))
    (st : pstate) (out : list (StreamChunk jsany)) (chunk : raw_chunk jsany)
    (id nm : jsstring) (i : N) (frag : jsstring) : Prop :=
  (∃ xid xmodel ts,
     (process_chunk st chunk).2
     = [ToolCallChunk jsany xid xmodel ts
          {| call_id := id; call_name := nm; call_arguments := inl frag |} i])
  ∧ toolCallMetadata (process_chunk st chunk).1 = toolCallMetadata st
  ∧ arguments_for id (out ++ (process_chunk st chunk).2)
    = arguments_for id out ++ frag.

(** A concrete setting for examples: no opaque values, ids [id0], [id1],
    ..., a clock that ticks from 1000. *)
Definition ex_generateId (k : nat) : jsstring := lit "id" ++ lit (pretty k).
Definition ex_Date_now (k : nat) : N := 1000 + N.of_nat k.
Definition ex_type_error : thrown unit :=
  ThrownObject unit (Some (lit "Cannot read properties of undefined")) None.

(** The claim that a drained generator ended normally on an error chunk
    with the given message and code. *)
Definition ends_on_error {jsany} (r : run (thrown jsany) (StreamChunk jsany))
    (message : jsstring) (code : option jsany) : Prop :=
  completed r = Returned
  ∧ ∃ out cid mdl ts,
      yielded r = out ++ [ErrorChunk jsany cid mdl ts message code].

Definition ex_chatStream :=
  chatStream unit (λ _, true) (λ _, lit "{}") tt ex_generateId ex_Date_now None
    ex_type_error unit tt LineReader.latin1_step (λ _, None).

(** The first delta of a call, as Chat Completions streams it: the id, the
    name and the provider's index [i]. *)
Definition ex_first_at (i : N) : raw_chunk unit :=
  tool_call_chunk unit (Some (lit "chatcmpl-1")) (Some (lit "gpt-4o"))
    [ {| tc_id := Some (lit "call_1"); tc_index := Some i;
         tc_function := Some {| fn_name := Some (lit "get_weather");
                                fn_arguments := Some (inl []) |} |} ].

(** A later delta of the same call: the provider's index and argument text
    only. *)
Definition ex_later_at (i : N) : raw_chunk unit :=
  tool_call_chunk unit (Some (lit "chatcmpl-1")) (Some (lit "gpt-4o"))
    [ index_only unit i
        (Some {| fn_name := None; fn_arguments := Some (inl (lit "{loc")) |}) ].

Definition ex_first_delta : raw_chunk unit := ex_first_at 0.
Definition ex_later_delta : raw_chunk unit := ex_later_at 0.

(** ** Reading the yielded chunks *)

Definition chunk_timestamp {jsany} (c : StreamChunk jsany) : N :=
  match c with
  | ContentChunk _ _ _ ts _ _ | ToolCallChunk _ _ _ ts _ _
  | DoneChunk _ _ _ ts _ _ | ErrorChunk _ _ _ ts _ _ => ts
  end.

Definition chunk_model_name {jsany} (c : StreamChunk jsany) : jsstring :=
  match c with
  | ContentChunk _ _ mdl _ _ _ | ToolCallChunk _ _ mdl _ _ _
  | DoneChunk _ _ mdl _ _ _ | ErrorChunk _ _ mdl _ _ _ => mdl
  end.

Definition is_tool_call_chunk {jsany} (c : StreamChunk jsany) : bool :=
  match c with ToolCallChunk _ _ _ _ _ _ => true | _ => false end.

(** The [delta] and [content] of a content chunk. *)
Definition content_of {jsany} (c : StreamChunk jsany) : option (jsstring * jsstring) :=
  match c with
  | ContentChunk _ _ _ _ delta content => Some (delta, content)
  | _ => None
  end.

(** The [finishReason] of a done chunk. *)
Definition finish_of {jsany} (c : StreamChunk jsany) : option jsstring :=
  match c with
  | DoneChunk _ _ _ _ finishReason _ => Some finishReason
  | _ => None
  end.

(** A sequence of (delta, content) pairs is a running concatenation from
    [acc]: no delta is empty and each content is the one before it followed
    by its delta. *)
Fixpoint accumulates (acc : jsstring) (pairs : list (jsstring * jsstring)) : Prop :=
  match pairs with
  | [] => True
  | (delta, content) :: rest =>
      truthy delta = true ∧ content = acc ++ delta ∧ accumulates content rest
  end.

(** Where such a sequence ends. *)
Definition accumulated (acc : jsstring) (pairs : list (jsstring * jsstring)) : jsstring :=
  default acc (last pairs.*2).

(** The part of the state the tool-call handling leaves alone. *)
Definition text_state (st : pstate) : jsstring * N :=
  (accumulatedContent st, timestamp st).

(** What one provider event makes the adapter yield, read off the chunks:
    every chunk carries the timestamp [ts] and a model name; the content
    chunks continue the running text from [acc] to [acc']; there are [n]
    tool-call chunks; a done chunk carries a finish reason that names a
    completion. *)
Definition well_formed_output {jsany} (ts : N) (acc acc' : jsstring) (n : nat)
    (out : list (StreamChunk jsany)) : Prop :=
  Forall (λ c, chunk_timestamp c = ts ∧ truthy (chunk_model_name c) = true) out
  ∧ accumulates acc (omap content_of out)
  ∧ accumulated acc (omap content_of out) = acc'
  ∧ length (filter (λ c, is_tool_call_chunk c = true) out) = n
  ∧ Forall (λ c, ∀ reason, finish_of c = Some reason →
                 finished_status (Some reason) = true) out.

(** An image API for examples: it returns, for a request of [n] images,
    [n] times the same base64 text; [atob] keeps the text as it is. *)
Definition ex_images_generate (k : nat) (rq : image_request unit)
  : thrown unit + option (list (option jsstring)) :=
  inr (Some (replicate (Z.to_nat (rq_n unit rq)) (Some (lit "QUJD")))).

Definition ex_atob (s : jsstring) : option jsstring := Some s.

(** Twelve images from a model that gives ten per call. *)
Definition ex_image_options : ImageGenerationOptions unit :=
  {| io_model := lit "dall-e-2"; io_prompt := lit "a guitar";
     io_n := Some 12%N; io_maxImagesPerCall := None; io_size := None;
     io_seed := None; io_providerOptions := None |}.

Definition ex_process_chunks :=
  process_chunks unit (λ _, true) (λ _, lit "{}") tt ex_generateId ex_Date_now None.
Definition ex_process_chunk :=
  process_chunk unit (λ _, true) (λ _, lit "{}") tt ex_generateId ex_Date_now None.
Definition ex_sightings := sightings unit (λ _, true) (λ _, lit "{}") tt.

End OpenAI.

(* ===================================================================== *)
(** * The tool-call manager *)
(* ===================================================================== *)

Module ToolCalls.

Section Manager.

(** Parsed JSON, [JSON.parse] ([None] when it throws) and
    [JSON.stringify]. *)
Variable value : Type.
Variable JSON_parse : string → option value.
Variable JSON_stringify : value → string.

(** The argument of [addToolCallChunk], as its reference page declares it:
    [{ index, toolCall: { id, type: "function", function: { name, arguments } } }]. *)
Record chunk := {
  chunk_index : N;
  chunk_id : string;
  chunk_name : string;
  chunk_arguments : string;
}.

(** Modelled from the spec: the accumulator entry [ToolCall] of
    [tools/tool-calls.ts], which is not among the sources:
    [{id, name, argumentsBuffer, index}]. *)
Record ToolCall := {
  id : string;
  name : string;
  argumentsBuffer : string;
  index : N;
}.

(** Modelled from the spec: the state of [ToolCallManager] (its fields are
    not among the sources): the entries in the order their ids were first
    seen, and the index→id lookup table built on first sighting. *)
Record manager := {
  entries : list ToolCall;
  index_to_id : gmap N string;
}.

Definition empty_manager : manager := {| entries := []; index_to_id := ∅ |}.

Definition known (m : manager) (k : string) : bool :=
  bool_decide (k ∈ id <$> entries m).

(** The id a chunk is addressed to: its own id or, when it carries none,
    the id registered for its index. *)
Definition resolve (m : manager) (c : chunk) : option string :=
  if decide (chunk_id c = "") then index_to_id m !! chunk_index c
  else Some (chunk_id c).

Definition extend (k frag : string) (tc : ToolCall) : ToolCall :=
  if decide (id tc = k)
  then {| id := id tc; name := name tc;
          argumentsBuffer := argumentsBuffer tc +:+ frag; index := index tc |}
  else tc.

(** Modelled from the spec: [ToolCallManager.addToolCallChunk], whose body
    is not among the sources.  On first sight of an id the entry and the
    table row for its index are registered (a row already there is kept);
    afterwards the fragment is appended to the buffer of the id the chunk
    resolves to, whatever index it carries.  A chunk without an id at an
    index without a row is dropped. *)
Definition addToolCallChunk (m : manager) (c : chunk) : manager :=
  match resolve m c with
  | None => m
  | Some k =>
      if known m k then
        {| entries := extend k (chunk_arguments c) <$> entries m;
           index_to_id := index_to_id m |}
      else
        {| entries := entries m ++
             [ {| id := k; name := chunk_name c;
                  argumentsBuffer := chunk_arguments c;
                  index := chunk_index c |} ];
           index_to_id :=
             match index_to_id m !! chunk_index c with
             | Some _ => index_to_id m
             | None => <[chunk_index c := k]> (index_to_id m)
             end |}
  end.

(** The manager while the call [k], first seen at index [i], is being
    streamed: the entries it had, then the entry of [k] with the text
    received so far. *)
Definition streaming (m : manager) (k nm : string) (i : N) (text : string) : manager :=
  {| entries := entries m ++
       [ {| id := k; name := nm; argumentsBuffer := text; index := i |} ];
     index_to_id :=
       match index_to_id m !! i with
       | Some _ => index_to_id m
       | None => <[i := k]> (index_to_id m)
       end |}.

(** Modelled from the spec: [ToolCallManager.getToolCalls]: the entries
    with both a non-empty id and a non-empty name. *)
Definition valid (tc : ToolCall) : bool :=
  negb (bool_decide (id tc = "")) && negb (bool_decide (name tc = "")).

Definition getToolCalls (m : manager) : list ToolCall :=
  filter (λ tc, valid tc = true) (entries m).

(** Modelled from the spec: [ToolCallManager.clear]. *)
Definition clear (m : manager) : manager := empty_manager.

Definition buffer_of (m : manager) (k : string) : option string :=
  argumentsBuffer <$> List.find (λ tc, bool_decide (id tc = k)) (entries m).

(** ** Execution *)

(** What a step that may throw gives: its value, or the message of the
    exception (thrown, or of a rejected promise once awaited). *)
Inductive outcome (A : Type) :=
| Ok (a : A)
| Raise (message : string).
Arguments Ok {A} a.
Arguments Raise {A} message.

(** Modelled from the spec: a tool of the chat turn: an optional executor,
    an optional output contract and the [needsApproval] flag.  The
    executor and the contract may throw. *)
Record Tool := {
  tool_name : string;
  execute : option (value → outcome value);
  outputContract : option (value → outcome value);
  needsApproval : bool;
}.

(** A tool result: its content, and whether it reports an error. *)
Record tool_result := {
  result_content : string;
  is_error : bool;
}.

Record ToolResultStreamChunk := {
  tr_id : string;            (* of the [done] chunk *)
  tr_model : string;
  tr_toolCallId : string;
  tr_content : string;
  tr_is_error : bool;
}.

(** A message of role [tool]. *)
Record ToolMessage := {
  msg_toolCallId : string;
  msg_content : string;
}.

Record DoneStreamChunk := { done_id : string; done_model : string }.

(** An async generator run to its end: the chunks it has yielded, and the
    value it returned or the exception that ended it. *)
Definition generator (A : Type) : Type := list ToolResultStreamChunk * outcome A.

Definition ret {A} (a : A) : generator A := ([], Ok a).

(** [yield chunk] *)
Definition yield (c : ToolResultStreamChunk) : generator unit := ([c], Ok tt).

(** A step that may throw, run where the generator stands. *)
Definition await {A} (step : outcome A) : generator A := ([], step).

(** Sequencing: an exception of the first part ends the generator, after
    the chunks yielded so far. *)
Definition bind {A B} (g : generator A) (f : A → generator B) : generator B :=
  match g with
  | (chunks, Ok a) => let '(more, o) := f a in (chunks ++ more, o)
  | (chunks, Raise message) => (chunks, Raise message)
  end.

(** [try { body } catch (error) { handler(error.message) }] *)
Definition try_catch {A} (body : generator A) (handler : string → generator A)
  : generator A :=
  match body with
  | (chunks, Raise message) =>
      let '(more, o) := handler message in (chunks ++ more, o)
  | (chunks, Ok a) => (chunks, Ok a)
  end.

Local Notation "'let*' x := g 'in' h" := (bind g (λ x, h))
  (at level 10, x name, g at level 200, h at level 200).

(** The message of the exception [JSON.parse] throws on a text. *)
Variable syntax_error : string → string.

Definition failure (text : string) : tool_result :=
  {| result_content := text; is_error := true |}.
Definition success (v : value) : tool_result :=
  {| result_content := JSON_stringify v; is_error := false |}.

(** Whether a call may run: its tool is not gated, or the decision supplied
    upstream for the call is an approval. *)
Definition may_run (approval : string → option bool) (t : Tool) (tc : ToolCall) : bool :=
  negb (needsApproval t) || bool_decide (approval (id tc) = Some true).

(** Modelled from the spec: the three steps that may throw: the
    authoritative parse of the accumulated arguments, the executor, and
    the output contract. *)
Definition parse_arguments (tc : ToolCall) : outcome value :=
  match JSON_parse (argumentsBuffer tc) with
  | Some args => Ok args
  | None => Raise (syntax_error (argumentsBuffer tc))
  end.

Definition invoke (t : Tool) (tc : ToolCall) (args : value) : outcome value :=
  match execute t with
  | Some run => run args
  | None => Raise ("Tool has no executor: " +:+ name tc)
  end.

Definition check_output (t : Tool) (out : value) : outcome value :=
  match outputContract t with
  | Some validate => validate out
  | None => Ok out
  end.

(** Modelled from the spec: the steps [executeTools] takes for one call
    (its body is not among the sources): parse the accumulated arguments,
    on failure an error result without throwing; leave alone a gated call
    that is not approved; invoke the executor; check the output against
    the contract if one is declared; on an exception of these an error
    result rather than propagating.  [None]: the call was not run and has
    no result.  The specification gives neither the text of an error
    result (the message of the exception is taken) nor what a call to an
    unknown tool gives (an error result is taken). *)
Definition run_call (tools : list Tool) (approval : string → option bool)
    (tc : ToolCall) : generator (option tool_result) :=
  let* parsed := try_catch (let* args := await (parse_arguments tc) in
                            ret (inr args))
                           (λ message, ret (inl (failure message))) in
  match parsed with
  | inl result => ret (Some result)
  | inr args =>
      match List.find (λ t, bool_decide (tool_name t = name tc)) tools with
      | None => ret (Some (failure ("Unknown tool: " +:+ name tc)))
      | Some t =>
          if may_run approval t tc then
            let* result := try_catch
                             (let* out := await (invoke t tc args) in
                              let* checked := await (check_output t out) in
                              ret (success checked))
                             (λ message, ret (failure message)) in
            ret (Some result)
          else ret None
      end
  end.

Definition chunk_of (d : DoneStreamChunk) (tc : ToolCall) (r : tool_result)
  : ToolResultStreamChunk :=
  {| tr_id := done_id d; tr_model := done_model d; tr_toolCallId := id tc;
     tr_content := result_content r; tr_is_error := is_error r |}.

Definition message_of (tc : ToolCall) (r : tool_result) : ToolMessage :=
  {| msg_toolCallId := id tc; msg_content := result_content r |}.

(** Modelled from the spec: the loop over the valid calls, in call order:
    a [tool_result] chunk is yielded for each call that has a result, and
    its message is added to those returned at the end. *)
Fixpoint execute_calls (tools : list Tool) (approval : string → option bool)
    (d : DoneStreamChunk) (calls : list ToolCall) : generator (list ToolMessage) :=
  match calls with
  | [] => ret []
  | tc :: rest =>
      let* result := run_call tools approval tc in
      match result with
      | Some r =>
          let* _ := yield (chunk_of d tc r) in
          let* messages := execute_calls tools approval d rest in
          ret (message_of tc r :: messages)
      | None => execute_calls tools approval d rest
      end
  end.

(** Modelled from the spec: [ToolCallManager.executeTools(doneChunk)]. *)
Definition executeTools (m : manager) (tools : list Tool)
    (approval : string → option bool) (d : DoneStreamChunk)
  : generator (list ToolMessage) :=
  execute_calls tools approval d (getToolCalls m).

(** A chunk is addressed to the call [k] that the manager [m] first saw
    at index [i]: it carries the id; or it carries no id and that index,
    and the index had no row before the call. *)
Definition addressed_to (m : manager) (k : string) (i : N) (c : chunk) : Prop :=
  chunk_id c = k
  ∨ (chunk_id c = "" ∧ chunk_index c = i ∧ index_to_id m !! i = None).

(** The fragments of a sequence of chunks, concatenated in arrival order. *)
Definition join (frags : list string) : string := foldr String.append "" frags.

(** The three tool-related failures of a call, with the message of the
    exception: the accumulated arguments do not parse; the executor throws
    or rejects; the output fails the declared contract. *)
Inductive fails (tools : list Tool) (approval : string → option bool)
    (tc : ToolCall) : string → Prop :=
| ParseError :
    JSON_parse (argumentsBuffer tc) = None →
    fails tools approval tc (syntax_error (argumentsBuffer tc))
| ToolExecutionError args t run message :
    JSON_parse (argumentsBuffer tc) = Some args →
    List.find (λ t, bool_decide (tool_name t = name tc)) tools = Some t →
    may_run approval t tc = true →
    execute t = Some run →
    run args = Raise message →
    fails tools approval tc message
| OutputValidationError args t run out validate message :
    JSON_parse (argumentsBuffer tc) = Some args →
    List.find (λ t, bool_decide (tool_name t = name tc)) tools = Some t →
    may_run approval t tc = true →
    execute t = Some run →
    run args = Ok out →
    outputContract t = Some validate →
    validate out = Raise message →
    fails tools approval tc message.

End Manager.

Arguments Ok {A} a.
Arguments Raise {A} message.

(** A setting for examples: values are lists of numbers, and the parser
    knows one text. *)
Definition ex_parse (text : string) : option (list nat) :=
  if bool_decide (text = "[1,2,3]") then Some [1; 2; 3] else None.

Definition ex_chunks : list chunk :=
  [ {| chunk_index := 0; chunk_id := "call_1"; chunk_name := "sum";
       chunk_arguments := "[1," |};
    {| chunk_index := 0; chunk_id := ""; chunk_name := "";
       chunk_arguments := "2" |};
    {| chunk_index := 7; chunk_id := "call_1"; chunk_name := "";
       chunk_arguments := ",3]" |} ].

(** Three calls: the first has arguments that do not parse, the second
    runs a tool whose executor throws, the third a tool that adds up its
    arguments. *)
Definition ex_call1 : ToolCall :=
  {| id := "call_1"; name := "sum"; argumentsBuffer := "[1,2"; index := 0 |}.
Definition ex_call2 : ToolCall :=
  {| id := "call_2"; name := "check"; argumentsBuffer := "[1,2,3]"; index := 1 |}.
Definition ex_call3 : ToolCall :=
  {| id := "call_3"; name := "sum"; argumentsBuffer := "[1,2,3]"; index := 2 |}.

Definition ex_calls : manager :=
  {| entries := [ex_call1; ex_call2; ex_call3];
     index_to_id := {[ 0%N := "call_1"; 1%N := "call_2"; 2%N := "call_3" ]} |}.

Definition ex_tools : list (Tool (list nat)) :=
  [ {| tool_name := "sum";
       execute := Some (λ args, Ok [foldr Nat.add 0 args]);
       outputContract := None;
       needsApproval := false |};
    {| tool_name := "check";
       execute := Some (λ _, Raise "out of range");
       outputContract := None;
       needsApproval := false |} ].

Definition ex_stringify (v : list nat) : string :=
  join ((λ n : nat, pretty n) <$> v).

Definition ex_syntax_error (text : string) : string :=
  "Unexpected end of JSON input".

Definition ex_done : DoneStreamChunk := {| done_id := "resp_1"; done_model := "gpt-4o" |}.

End ToolCalls.

(* ===================================================================== *)
(** * The OpenAI adapter's tools and request parameters *)
(* ===================================================================== *)

Module Tools.

Section Convert.

(** A JSON schema object, and [{}]. *)
Variable params : Type.
Variable empty_params : params.

(** [Omit<FunctionTool, "type">]: the fields of OpenAI's function tool. *)
Record config := {
  cfg_name : string;
  cfg_description : option string;
  cfg_parameters : option params;
  cfg_strict : option bool;
}.

(** A standard [Tool]: [{ type: "function", function, metadata? }]. *)
Record tool_function := {
  fun_name : string;
  fun_description : string;
  fun_parameters : params;
}.

Record Tool := {
  function : tool_function;
  metadata : option config;
}.

(** The special converters ([apply-patch-tool.ts] and the like) are not
    among the sources: what they return is kept as it is, and they may
    throw. *)
Variable special : Type.
Variable error : Type.
Variable convert_special : string → Tool → error + special.

Inductive OpenAITool :=
| Flat (c : config)                      (* [{ type: "function", ...metadata }] *)
| Nested (name description : string) (parameters : params)
                                         (* [{ type, name, function: {...} }] *)
| Special (s : special).

(** [functionTool(config)] *)
Definition functionTool (c : config) : Tool :=
  {| function :=
       {| fun_name := cfg_name c;
          fun_description := default "" (cfg_description c);
          fun_parameters := default empty_params (cfg_parameters c) |};
     metadata := Some c |}.

(** [convertFunctionToolToAdapterFormat(tool)] *)
Definition convertFunctionToolToAdapterFormat (tool : Tool) : OpenAITool :=
  match metadata tool with
  | Some m => Flat m
  | None =>
      Nested (fun_name (function tool)) (fun_description (function tool))
        (fun_parameters (function tool))
  end.

Definition specialToolNames : list string :=
  [ "apply_patch"; "code_interpreter"; "computer_use_preview"; "file_search";
    "image_generation"; "local_shell"; "mcp"; "shell"; "web_search_preview";
    "web_search"; "custom" ].

(** The callback of [tools.map]. *)
Definition convert_tool (tool : Tool) : error + OpenAITool :=
  let toolName := fun_name (function tool) in
  if bool_decide (toolName ∈ specialToolNames)
  then match convert_special toolName tool with
       | inl e => inl e
       | inr s => inr (Special s)
       end
  else inr (convertFunctionToolToAdapterFormat tool).

(** [convertToolsToProviderFormat(tools)]: the first exception ends the
    [map]. *)
Fixpoint convertToolsToProviderFormat (tools : list Tool)
  : error + list OpenAITool :=
  match tools with
  | [] => inr []
  | tool :: rest =>
      match convert_tool tool with
      | inl e => inl e
      | inr t =>
          match convertToolsToProviderFormat rest with
          | inl e => inl e
          | inr ts => inr (t :: ts)
          end
      end
  end.

(** ** [mapChatOptionsToOpenAI] *)

(** Numbers, metadata and the other values of provider options are passed
    on as they are; [convertMessagesToInput] is not among the sources. *)
Variable number : Type.
Variable any : Type.
Variable messages : Type.
Variable input : Type.
Variable convertMessagesToInput : messages → error + input.

Inductive param :=
| PString (s : string)
| PNumber (n : number)
| PAny (v : any)
| PInput (i : input)
| PTools (l : list OpenAITool).

(** [options.options] *)
Record common_options := {
  temperature : option number;
  maxTokens : option number;
  topP : option number;
  co_metadata : option any;
}.

Record ChatCompletionOptions := {
  co_model : string;
  co_messages : messages;
  co_tools : option (list Tool);
  co_options : option common_options;
  co_providerOptions : option (gmap string (option param));
}.

(** The keys written before [...providerOptions]; a key holding
    [undefined] is a key still. *)
Definition common_params (o : ChatCompletionOptions) : gmap string (option param) :=
  <["model" := Some (PString (co_model o))]>
  (<["temperature" := PNumber <$> (co_options o ≫= temperature)]>
  (<["max_output_tokens" := PNumber <$> (co_options o ≫= maxTokens)]>
  (<["top_p" := PNumber <$> (co_options o ≫= topP)]>
  {[ "metadata" := PAny <$> (co_options o ≫= co_metadata) ]}))).

(** [mapChatOptionsToOpenAI(options)]: an exception is logged and thrown
    again. *)
Definition mapChatOptionsToOpenAI (o : ChatCompletionOptions)
  : error + gmap string (option param) :=
  match convertMessagesToInput (co_messages o) with
  | inl e => inl e
  | inr i =>
      let tools :=
        match co_tools o with
        | Some l =>
            match convertToolsToProviderFormat l with
            | inl e => inl e
            | inr ts => inr (Some (PTools ts))
            end
        | None => inr None
        end in
      match tools with
      | inl e => inl e
      | inr tools =>
          inr (<["tools" := tools]>
               (<["input" := Some (PInput i)]>
                (default ∅ (co_providerOptions o) ∪ common_params o)))
      end
  end.

End Convert.

Definition ex_configs : list (config nat) :=
  [ {| cfg_name := "getGuitars"; cfg_description := Some "List the guitars";
       cfg_parameters := Some 1; cfg_strict := None |};
    {| cfg_name := "recommendGuitar"; cfg_description := None;
       cfg_parameters := None; cfg_strict := Some true |} ].

(** Options for examples: provider options that name [model], [input] and
    a key of their own. *)
Definition ex_options : ChatCompletionOptions nat unit nat nat nat nat :=
  {| co_model := "gpt-4o"; co_messages := 7;
     co_tools := Some (functionTool nat 0 <$> ex_configs);
     co_options := Some {| temperature := Some 1; maxTokens := None;
                           topP := None; co_metadata := None |};
     co_providerOptions :=
       Some (<["model" := Some (PString _ _ _ _ _ "gpt-5")]>
             (<["input" := Some (PAny _ _ _ _ _ 0)]>
              {[ "store" := Some (PAny _ _ _ _ _ 1) ]})) |}.

Definition ex_params : gmap string (option (param nat unit nat nat nat)) :=
  match mapChatOptionsToOpenAI nat unit unit (λ _ _, inl tt)
          nat nat nat nat (λ m, inr (m + 1)) ex_options with
  | inr requestParams => requestParams
  | inl _ => ∅
  end.

End Tools.

(* ===================================================================== *)
(** * Facts about the line reader *)
(* ===================================================================== *)

Module LineReaderFacts.
Import JS LineReader.

(** [split] never returns an empty array. *)
Lemma split_nl_nonempty s : split_nl s ≠ [].
Proof.
  destruct s as [|c r]; simpl; [done|].
  destruct (c =? NL)%N; [done|]. by destruct (split_nl r).
Qed.

Lemma split_nl_snoc s : split_nl s = complete s ++ [pending s].
Proof.
  unfold complete, pending. pose proof (split_nl_nonempty s) as Hne.
  destruct (split_nl s) as [|l ls] using rev_ind; [done|].
  by rewrite removelast_last, last_snoc.
Qed.

Lemma removelast_cons {A} (x : A) l : l ≠ [] → removelast (x :: l) = x :: removelast l.
Proof. by destruct l. Qed.

Lemma last_cons_ne {A} (x : A) l : l ≠ [] → last (x :: l) = last l.
Proof. by destruct l. Qed.

(** Splitting a concatenation: the complete lines of the first part stay,
    its pending text is glued to the second part. *)
Lemma split_nl_app a b :
  split_nl (a ++ b) = complete a ++ split_nl (pending a ++ b).
Proof.
  induction a as [|c a IH]; [done|].
  unfold complete, pending in *. simpl.
  destruct (N.eqb_spec c NL) as [->|Hc].
  - rewrite removelast_cons, last_cons_ne by apply split_nl_nonempty.
    simpl. by rewrite IH.
  - rewrite IH.
    pose proof (split_nl_nonempty a) as Hne.
    destruct (split_nl a) as [|l ls]; [done|]. clear Hne.
    destruct ls as [|l' ls'].
    + simpl. destruct (N.eqb_spec c NL); [done|].
      pose proof (split_nl_nonempty (l ++ b)).
      by destruct (split_nl (l ++ b)).
    + rewrite removelast_cons, last_cons_ne by done.
      rewrite (removelast_cons (c :: l)), (last_cons_ne (c :: l)) by done.
      done.
Qed.

Lemma complete_app a b :
  complete (a ++ b) = complete a ++ complete (pending a ++ b).
Proof.
  unfold complete at 1. rewrite split_nl_app.
  rewrite removelast_app by apply split_nl_nonempty. done.
Qed.

Lemma pending_app a b : pending (a ++ b) = pending (pending a ++ b).
Proof.
  unfold pending at 1. rewrite split_nl_app.
  rewrite (split_nl_snoc (pending a ++ b)), app_assoc.
  by rewrite last_snoc.
Qed.

Lemma split_nl_no_newline s : NL ∉ s → split_nl s = [s].
Proof.
  induction s as [|c r IH]; [done|]. intros Hnotin.
  apply not_elem_of_cons in Hnotin as [Hc Hr]. simpl.
  destruct (N.eqb_spec c NL); [done|]. by rewrite IH.
Qed.

Lemma pending_no_newline s : NL ∉ pending s.
Proof.
  induction s as [|c r IH]; unfold pending in *; simpl.
  - apply not_elem_of_nil.
  - destruct (N.eqb_spec c NL) as [->|Hc].
    + by rewrite last_cons_ne by apply split_nl_nonempty.
    + pose proof (split_nl_nonempty r) as Hne.
      destruct (split_nl r) as [|l ls]; [done|].
      destruct ls as [|l' ls'].
      * simpl in *. by apply not_elem_of_cons.
      * by rewrite last_cons_ne in * by done.
Qed.

Lemma complete_pending s : complete (pending s) = [].
Proof.
  unfold complete. by rewrite split_nl_no_newline by apply pending_no_newline.
Qed.

Lemma pending_pending s : pending (pending s) = pending s.
Proof.
  unfold pending at 1. by rewrite split_nl_no_newline by apply pending_no_newline.
Qed.

Lemma or_str_nil s : or_str s [] = s.
Proof. by destruct s. Qed.

Section ReaderFacts.

Context {dstate : Type} (dinit : dstate) (dstep : dstate → Byte.byte → dstate * jsstring).

Local Abbreviation decode := (decode dstate dstep).
Local Abbreviation read_loop := (read_loop dstate dstep).
Local Abbreviation readStreamLines := (readStreamLines dstate dinit dstep).

(** Decoding is a fold over the bytes: cutting the input anywhere and
    resuming from the state reached gives the same text. *)
Lemma decode_app d a b :
  decode d (a ++ b) =
    let '(d1, o1) := decode d a in
    let '(d2, o2) := decode d1 b in (d2, o1 ++ o2).
Proof.
  revert d. induction a as [|x a IH]; intros d; simpl.
  - by destruct (decode d b).
  - destruct (dstep d x) as [d1 o1]. rewrite IH.
    destruct (decode d1 a) as [d2 o2]. destruct (decode d2 b) as [d3 o3].
    by rewrite app_assoc.
Qed.

Lemma read_loop_spec reads : ∀ k d b,
  read_loop never k d (pending b) reads =
    lines_of (pending b ++ (decode d (concat reads)).2).
Proof.
  induction reads as [|value rest IH]; intros k d b.
  - simpl. unfold lines_of. rewrite app_nil_r.
    by rewrite complete_pending, pending_pending.
  - cbn [read_loop never concat]. unfold never in *.
    rewrite decode_app.
    destruct (decode d value) as [d' text].
    destruct (decode d' (concat rest)) as [d'' text'] eqn:Hrest.
    unfold pop. fold (complete (pending b ++ text)).
    rewrite or_str_nil. fold (pending (pending b ++ text)).
    rewrite IH, Hrest. cbn [snd]. unfold lines_of.
    rewrite (app_assoc (pending b) text text').
    rewrite (complete_app (pending b ++ text) text').
    rewrite (pending_app (pending b ++ text) text').
    by rewrite filter_app, app_assoc.
Qed.

(** Without an abort signal, the yielded lines are a function of the
    concatenated bytes. *)
Lemma readStreamLines_spec reads :
  readStreamLines reads None = lines_of (decode dinit (concat reads)).2.
Proof.
  unfold LineReader.readStreamLines. cbn [default].
  change (@nil N) with (pending []) at 1.
  apply (read_loop_spec reads 0 dinit []).
Qed.

End ReaderFacts.

Section Segmentation.

Context {dstate : Type} (dinit : dstate) (dstep : dstate → Byte.byte → dstate * jsstring).
Context {StreamChunk : Type} (JSON_parse : jsstring → option StreamChunk).

Local Abbreviation readStreamLines := (readStreamLines dstate dinit dstep).
Local Abbreviation fetchHttpStream_connect :=
  (fetchHttpStream_connect dstate dinit dstep StreamChunk JSON_parse).
Local Abbreviation fetchServerSentEvents_connect :=
  (fetchServerSentEvents_connect dstate dinit dstep StreamChunk JSON_parse).

(** C10.  Without an abort, [readStreamLines] yields the lines of the whole
    decoded text: its complete lines that are not blank and then, at the end
    of the stream, the pending text after the last newline if it is not
    blank.  So two sequences of [read()] results that carry the same bytes
    make it yield the same lines, and make [fetchHttpStream] and
    [fetchServerSentEvents] yield the same chunks: the output depends on
    the concatenated bytes only, not on where the network cut them. *)
Theorem lines_independent_of_segmentation (reads1 reads2 : list (list Byte.byte)) :
  concat reads1 = concat reads2 →
  readStreamLines reads1 None = lines_of (decode dstate dstep dinit (concat reads1)).2
  ∧ readStreamLines reads1 None = readStreamLines reads2 None
  ∧ (∀ ok status statusText,
       fetchHttpStream_connect
         {| ok := ok; status := status; statusText := statusText;
            body := Some reads1 |} None
       = fetchHttpStream_connect
           {| ok := ok; status := status; statusText := statusText;
              body := Some reads2 |} None
       ∧ fetchServerSentEvents_connect
           {| ok := ok; status := status; statusText := statusText;
              body := Some reads1 |} None
         = fetchServerSentEvents_connect
             {| ok := ok; status := status; statusText := statusText;
                body := Some reads2 |} None).
Proof.
  intros Hbytes.
  assert (readStreamLines reads1 None = readStreamLines reads2 None) as Hlines.
  { by rewrite !readStreamLines_spec, Hbytes. }
  split; [apply readStreamLines_spec|].
  split; [done|]. intros ok status statusText.
  unfold LineReader.fetchHttpStream_connect,
    LineReader.fetchServerSentEvents_connect. cbn [LineReader.ok LineReader.body
    LineReader.status LineReader.statusText].
  by rewrite Hlines.
Qed.

End Segmentation.

Example sample_lines :
  LineReader.readStreamLines unit tt latin1_step sample_reads1 None
  = [lit "{a}"; lit "{b}"; lit "{c"].
Proof. reflexivity. Qed.

Lemma lines_independent_of_segmentation_witness :
  concat sample_reads1 = concat sample_reads2
  ∧ LineReader.readStreamLines unit tt latin1_step sample_reads1 None
    = LineReader.readStreamLines unit tt latin1_step sample_reads2 None.
Proof.
  split; [reflexivity|].
  apply (lines_independent_of_segmentation tt latin1_step (λ s, Some s)
           sample_reads1 sample_reads2).
  reflexivity.
Defined.

End LineReaderFacts.

(* ===================================================================== *)
(** * Facts about the OpenAI adapter *)
(* ===================================================================== *)

Module OpenAIFacts.
Import JS OpenAI.

Section AdapterFacts.

Context {jsany : Type} (any_truthy : jsany → bool)
  (JSON_stringify : jsany → jsstring) (empty_object : jsany)
  (generateId : nat → jsstring) (Date_now : nat → N)
  (options_model : option jsstring) (type_error : thrown jsany).

Local Abbreviation start := (start Date_now).
Local Abbreviation chunk_id := (chunk_id jsany generateId).
Local Abbreviation classify := (classify jsany any_truthy JSON_stringify empty_object).
Local Abbreviation handle_content := (handle_content jsany generateId options_model).
Local Abbreviation resolve_tool_call :=
  (resolve_tool_call jsany any_truthy JSON_stringify empty_object Date_now).
Local Abbreviation handle_tool_call :=
  (handle_tool_call jsany any_truthy JSON_stringify empty_object generateId
     Date_now options_model).
Local Abbreviation handle_tool_calls :=
  (handle_tool_calls jsany any_truthy JSON_stringify empty_object generateId
     Date_now options_model).
Local Abbreviation handle_finish := (handle_finish jsany generateId options_model).
Local Abbreviation process_chunk :=
  (process_chunk jsany any_truthy JSON_stringify empty_object generateId
     Date_now options_model).
Local Abbreviation process_chunks :=
  (process_chunks jsany any_truthy JSON_stringify empty_object generateId
     Date_now options_model).
Local Abbreviation processOpenAIStreamChunks :=
  (processOpenAIStreamChunks jsany any_truthy JSON_stringify empty_object
     generateId Date_now options_model type_error).

(** ** No event makes the loop body yield an error chunk *)

Local Abbreviation no_error := (Forall (λ c : StreamChunk jsany, is_error_chunk jsany c = false)).

Lemma handle_content_no_error st chunk delta :
  no_error (handle_content st chunk delta).2.
Proof.
  unfold OpenAI.handle_content.
  destruct (delta ≫= d_content jsany) as [text|]; [|by constructor].
  destruct (truthy text); [|by constructor].
  destruct (chunk_id _ chunk) as [cid st2]. repeat constructor.
Qed.

Lemma handle_tool_calls_no_error calls : ∀ st chunk,
  no_error (handle_tool_calls st chunk calls).2.
Proof.
  induction calls as [|c rest IH]; intros st chunk; simpl; [by constructor|].
  unfold OpenAI.handle_tool_call.
  destruct (resolve_tool_call st c) as [[st1 call] i].
  destruct (chunk_id st1 chunk) as [cid st2].
  specialize (IH st2 chunk).
  destruct (handle_tool_calls st2 chunk rest) as [st3 out]. simpl in *.
  by constructor.
Qed.

Lemma handle_finish_no_error st chunk fin :
  no_error (handle_finish st chunk fin).2.
Proof.
  unfold OpenAI.handle_finish.
  destruct (finished_status fin); [|by constructor].
  destruct (chunk_id st chunk) as [cid st1]. repeat constructor.
Qed.

Lemma process_chunk_no_error st chunk : no_error (process_chunk st chunk).2.
Proof.
  unfold OpenAI.process_chunk.
  destruct (classify _ chunk) as [[st1 delta] fin].
  pose proof (handle_content_no_error st1 chunk delta) as H1.
  destruct (handle_content st1 chunk delta) as [st2 out1].
  assert (∃ st3 out2,
    match delta ≫= d_tool_calls jsany with
    | Some calls => handle_tool_calls st2 chunk calls
    | None => (st2, [])
    end = (st3, out2) ∧ no_error out2) as (st3 & out2 & -> & H2).
  { destruct (delta ≫= d_tool_calls jsany) as [calls|].
    - pose proof (handle_tool_calls_no_error calls st2 chunk).
      destruct (handle_tool_calls st2 chunk calls); eauto.
    - eexists _, _. split; [done|constructor]. }
  pose proof (handle_finish_no_error st3 chunk fin) as H3.
  destruct (handle_finish st3 chunk fin) as [st4 out3]. simpl in *.
  by repeat apply Forall_app_2.
Qed.

Lemma process_chunks_no_error events : ∀ st,
  no_error (process_chunks st events).2.
Proof.
  induction events as [|chunk rest IH]; intros st; simpl; [by constructor|].
  pose proof (process_chunk_no_error st chunk).
  destruct (process_chunk st chunk) as [st1 out1].
  specialize (IH st1). destruct (process_chunks st1 rest) as [st2 out2].
  by apply Forall_app_2.
Qed.

(** ** A failing provider stream *)

(** What [processOpenAIStreamChunks] does when the stream it drains throws
    an exception object after yielding [events]. *)
Lemma process_stream_failure events message code tbl ids clock :
  processOpenAIStreamChunks (Run events (Threw (ThrownObject jsany message code)))
    tbl ids clock
  = let '(st, out) := process_chunks (start tbl ids clock) events in
    Run (out ++ [ErrorChunk jsany (generateId (ids_made st))
                   (oor options_model (lit "gpt-3.5-turbo"))
                   (timestamp st)
                   (oor message (lit "Unknown error occurred"))
                   code])
        Returned.
Proof.
  unfold OpenAI.processOpenAIStreamChunks. cbn [yielded completed].
  by destruct (process_chunks _ events).
Qed.

Section Parsing.

Context {dstate : Type} (dinit : dstate)
  (dstep : dstate → Byte.byte → dstate * jsstring)
  (JSON_parse : jsstring → option (raw_chunk jsany)).

Local Abbreviation parse_loop := (parse_loop jsany dstate dstep JSON_parse).
Local Abbreviation parseResponsesStream :=
  (parseResponsesStream jsany dstate dinit dstep JSON_parse).
Local Abbreviation chatStream :=
  (chatStream jsany any_truthy JSON_stringify empty_object generateId Date_now
     options_model type_error dstate dinit dstep JSON_parse).

(** [parseResponsesStream] has no [catch] around [reader.read()]: a failed
    read ends it with that exception. *)
Lemma parse_loop_rethrows reads e : ∀ d buffer,
  completed (parse_loop d buffer reads (ReadThrows jsany e)) = Threw e.
Proof.
  induction reads as [|value rest IH]; intros d buffer; simpl; [done|].
  destruct (LineReader.decode dstate dstep d value) as [d' text].
  unfold pop. simpl. apply IH.
Qed.

(** C9 (amended).  When the provider stream fails with an exception object
    while [chatStream] is consumed, the generator does not throw: it yields
    the chunks of the events parsed before the failure, none of them an
    error chunk, then one error chunk, and returns.  The error chunk carries
    the exception's code, and the exception's message when that is a
    non-empty string, ["Unknown error occurred"] otherwise. *)
Theorem stream_failure_ends_on_error_chunk
    (reads : list (list Byte.byte)) (message : option jsstring)
    (code : option jsany) (ids clock : nat) :
  let failure := ReadThrows jsany (ThrownObject jsany message code) in
  let r := chatStream (inr (reads, failure)) ids clock in
  let events := yielded (parseResponsesStream reads failure) in
  let st := (process_chunks (start [] ids clock) events).1 in
  let out := (process_chunks (start [] ids clock) events).2 in
  completed r = Returned
  ∧ yielded r =
      out ++ [ErrorChunk jsany (generateId (ids_made st))
                (oor options_model (lit "gpt-3.5-turbo"))
                (timestamp st)
                (oor message (lit "Unknown error occurred"))
                code]
  ∧ no_error out.
Proof.
  intros failure r events st out. subst r st out events.
  unfold OpenAI.chatStream.
  pose proof (parse_loop_rethrows reads (ThrownObject jsany message code)
                dinit []) as Hfin.
  fold failure in Hfin. change (parse_loop dinit [] reads failure)
    with (parseResponsesStream reads failure) in Hfin.
  destruct (parseResponsesStream reads failure) as [evs fin].
  cbn [completed yielded] in *. subst fin.
  rewrite process_stream_failure.
  pose proof (process_chunks_no_error evs (start [] ids clock)) as Hno.
  destruct (process_chunks (start [] ids clock) evs) as [st out].
  by cbn [yielded completed fst snd] in *.
Qed.

(** The two failures the [catch] block does not turn into a chunk.  The
    request itself, [responses.create], runs before the [try] is entered;
    and on a thrown [null] or [undefined] the [catch] block fails while it
    reads [error.message]. *)
Lemma create_failure_propagates e ids clock :
  chatStream (inl e) ids clock = Run [] (Threw e).
Proof. done. Qed.

Lemma nullish_failure_propagates reads ids clock :
  completed (chatStream (inr (reads, ReadThrows jsany (ThrownNullish jsany))) ids clock)
  = Threw type_error.
Proof.
  unfold OpenAI.chatStream, OpenAI.processOpenAIStreamChunks.
  pose proof (parse_loop_rethrows reads (ThrownNullish jsany) dinit []) as Hfin.
  change (parse_loop dinit [] reads (ReadThrows jsany (ThrownNullish jsany)))
    with (parseResponsesStream reads (ReadThrows jsany (ThrownNullish jsany))) in Hfin.
  destruct (parseResponsesStream reads _) as [evs fin].
  cbn [completed yielded] in *. subst fin.
  by destruct (process_chunks _ evs).
Qed.

End Parsing.

(** ** The tool-call table *)

Local Abbreviation chunk_tool_calls :=
  (chunk_tool_calls jsany any_truthy JSON_stringify empty_object).
Local Abbreviation sightings :=
  (sightings jsany any_truthy JSON_stringify empty_object).

(** The tool calls of an event do not depend on the state. *)
Lemma classify_tool_calls st chunk :
  default [] ((classify st chunk).1.2 ≫= d_tool_calls jsany) = chunk_tool_calls chunk.
Proof.
  unfold OpenAI.chunk_tool_calls, OpenAI.classify.
  destruct (truthy_o (c_type jsany chunk)); [|by repeat case_match].
  unfold responses_event.
  repeat (case_match; simplify_eq/=; try done).
Qed.

Lemma chunk_id_registry st chunk : registry (chunk_id st chunk).2 = registry st.
Proof. unfold OpenAI.chunk_id. by repeat case_match. Qed.

Lemma classify_registry st chunk : registry (classify st chunk).1.1 = registry st.
Proof.
  unfold OpenAI.classify.
  destruct (truthy_o (c_type jsany chunk)); [|by repeat case_match].
  unfold responses_event.
  destruct (c_response jsany chunk); by repeat case_match.
Qed.

Lemma handle_content_registry st chunk delta :
  registry (handle_content st chunk delta).1 = registry st.
Proof.
  unfold OpenAI.handle_content.
  destruct (delta ≫= d_content jsany) as [text|]; [|done].
  destruct (truthy text); [|done].
  pose proof (chunk_id_registry
    (set_accumulated st (accumulatedContent st ++ text)) chunk) as H.
  by destruct (chunk_id _ chunk).
Qed.

Lemma handle_finish_registry st chunk fin :
  registry (handle_finish st chunk fin).1 = registry st.
Proof.
  unfold OpenAI.handle_finish. destruct (finished_status fin); [|done].
  pose proof (chunk_id_registry st chunk). by destruct (chunk_id st chunk).
Qed.

Lemma map_set_fresh (tbl : list (jsstring * meta)) k v :
  map_has tbl k = false → map_set tbl k v = tbl ++ [(k, v)].
Proof.
  unfold map_has. rewrite bool_decide_eq_false.
  induction tbl as [|[k' v'] r IH]; intros Hk; simpl; [done|].
  rewrite fmap_cons, not_elem_of_cons in Hk. destruct Hk as [Hne Hr].
  destruct (decide (k = k')); [done|]. by rewrite IH.
Qed.

Lemma map_get_has (tbl : list (jsstring * meta)) k :
  map_has tbl k = true → is_Some (map_get tbl k).
Proof.
  unfold map_has. rewrite bool_decide_eq_true.
  induction tbl as [|[k' v'] r IH]; intros Hk; simpl.
  - by apply elem_of_nil in Hk.
  - destruct (decide (k = k')); [by eexists|].
    apply IH. rewrite fmap_cons in Hk. by apply elem_of_cons in Hk as [?|?].
Qed.

Lemma map_get_set (tbl : list (jsstring * meta)) k v :
  map_get (map_set tbl k v) k = Some v.
Proof.
  induction tbl as [|[k' v'] r IH]; simpl.
  - by rewrite decide_True.
  - destruct (decide (k = k')) as [->|Hne]; simpl.
    + by rewrite decide_True.
    + by rewrite decide_False.
Qed.

(** The non-null assertion [toolCallMetadata.get(toolCallId)!] holds: after
    the [has]/[set] step the id is in the table. *)
Lemma registered_after_sighting (st : pstate) k v :
  is_Some (map_get
    (toolCallMetadata
       (if map_has (toolCallMetadata st) k then st
        else set_table st (map_set (toolCallMetadata st) k v) (nextIndex st + 1)))
    k).
Proof.
  destruct (map_has (toolCallMetadata st) k) eqn:Hhas.
  - by apply map_get_has.
  - simpl. rewrite map_get_set. by eexists.
Qed.

Lemma resolve_tool_call_table st toolCall :
  synced st →
  toolCallMetadata (resolve_tool_call st toolCall).1.1
    = after_call jsany (toolCallMetadata st) toolCall
  ∧ synced (resolve_tool_call st toolCall).1.1.
Proof.
  unfold synced, OpenAI.after_call, OpenAI.resolve_tool_call, sighting, register.
  intros Hsync.
  destruct (truthy_o (tc_id jsany toolCall)); cbn [fst snd].
  - destruct (map_has (toolCallMetadata st) _) eqn:Hhas; cbn [fst snd]; [done|].
    unfold set_table; cbn [toolCallMetadata nextIndex].
    rewrite map_set_fresh by done. rewrite Hsync. split; [done|].
    rewrite length_app. simpl. lia.
  - destruct (map_entry _ _) as [[id m]|]; done.
Qed.

Lemma handle_tool_calls_table calls : ∀ st chunk,
  synced st →
  toolCallMetadata (handle_tool_calls st chunk calls).1
    = foldl (after_call jsany) (toolCallMetadata st) calls
  ∧ synced (handle_tool_calls st chunk calls).1.
Proof.
  induction calls as [|c rest IH]; intros st chunk Hsync; simpl; [done|].
  unfold OpenAI.handle_tool_call.
  destruct (resolve_tool_call_table st c Hsync) as [Htbl Hsync1].
  destruct (resolve_tool_call st c) as [[st1 call] i]. cbn [fst snd] in *.
  pose proof (chunk_id_registry st1 chunk) as Hreg.
  destruct (chunk_id st1 chunk) as [cid st2]. cbn [fst snd] in *.
  injection Hreg as Ht Hn.
  assert (synced st2) as Hsync2 by (unfold synced in *; congruence).
  destruct (IH st2 chunk Hsync2) as [Htbl2 Hsync3].
  destruct (handle_tool_calls st2 chunk rest) as [st3 out]. cbn [fst snd] in *.
  split; [|done]. by rewrite Htbl2, Ht, Htbl.
Qed.

Lemma foldl_after_call calls : ∀ tbl,
  foldl (after_call jsany) tbl calls = foldl register tbl (omap (sighting jsany) calls).
Proof.
  induction calls as [|c rest IH]; intros tbl; simpl; [done|].
  rewrite IH. unfold OpenAI.after_call. by destruct (sighting jsany c).
Qed.

Lemma process_chunk_table st chunk :
  synced st →
  toolCallMetadata (process_chunk st chunk).1
    = foldl register (toolCallMetadata st)
        (omap (sighting jsany) (chunk_tool_calls chunk))
  ∧ synced (process_chunk st chunk).1.
Proof.
  intros Hsync. unfold OpenAI.process_chunk.
  pose proof (classify_registry (bump_chunkCount st) chunk) as Hreg1.
  pose proof (classify_tool_calls (bump_chunkCount st) chunk) as Hcalls.
  destruct (classify _ chunk) as [[st1 delta] fin]. cbn [fst snd] in *.
  pose proof (handle_content_registry st1 chunk delta) as Hreg2.
  destruct (handle_content st1 chunk delta) as [st2 out1]. cbn [fst snd] in *.
  assert (synced st2) as Hsync2.
  { unfold synced, registry in *. cbn in Hreg1. congruence. }
  assert (toolCallMetadata st2 = toolCallMetadata st) as Htbl2.
  { unfold registry in *. cbn in Hreg1. congruence. }
  assert (∃ st3 out2,
    match delta ≫= d_tool_calls jsany with
    | Some calls => handle_tool_calls st2 chunk calls
    | None => (st2, [])
    end = (st3, out2)
    ∧ toolCallMetadata st3
      = foldl register (toolCallMetadata st)
          (omap (sighting jsany) (chunk_tool_calls chunk))
    ∧ synced st3) as (st3 & out2 & -> & Htbl3 & Hsync3).
  { rewrite <- Hcalls, <- Htbl2.
    destruct (delta ≫= d_tool_calls jsany) as [calls|]; cbn [default].
    - destruct (handle_tool_calls_table calls st2 chunk Hsync2) as [H1 H2].
      destruct (handle_tool_calls st2 chunk calls) as [st3 out2].
      eexists _, _. split; [done|]. cbn [fst] in *.
      by rewrite H1, foldl_after_call.
    - by eexists _, _. }
  pose proof (handle_finish_registry st3 chunk fin) as Hreg4.
  destruct (handle_finish st3 chunk fin) as [st4 out3]. cbn [fst snd] in *.
  unfold synced, registry in *. split; congruence.
Qed.

Lemma process_chunks_table events : ∀ st,
  synced st →
  toolCallMetadata (process_chunks st events).1
    = foldl register (toolCallMetadata st) (sightings events)
  ∧ synced (process_chunks st events).1.
Proof.
  induction events as [|chunk rest IH]; intros st Hsync; simpl; [done|].
  destruct (process_chunk_table st chunk Hsync) as [Htbl Hsync1].
  destruct (process_chunk st chunk) as [st1 out1]. cbn [fst snd] in *.
  destruct (IH st1 Hsync1) as [Htbl2 Hsync2].
  destruct (process_chunks st1 rest) as [st2 out2]. cbn [fst snd] in *.
  split; [|done]. rewrite Htbl2, Htbl.
  unfold OpenAI.sightings. cbn [mbind list_bind].
  by rewrite omap_app, foldl_app.
Qed.

Lemma register_indexed tbl s : indexed tbl → indexed (register tbl s).
Proof.
  unfold register, indexed. intros Hind. destruct (map_has tbl s.1); [done|].
  intros k id m Hk. apply lookup_app_Some in Hk as [Hk|[Hge Hk]]; [eauto|].
  apply list_lookup_singleton_Some in Hk as [Hk Heq]. simplify_eq/=.
  f_equal. lia.
Qed.

Lemma foldl_register_indexed seen : ∀ tbl,
  indexed tbl → indexed (foldl register tbl seen).
Proof.
  induction seen as [|s rest IH]; intros tbl Hind; simpl; [done|].
  by apply IH, register_indexed.
Qed.

Lemma first_sighting_table_indexed seen : indexed (first_sighting_table seen).
Proof. apply foldl_register_indexed. by intros k id m Hk. Qed.

(** The table of [chatStream] after any events is the first-sighting
    table of those events. *)
Lemma table_after_events ids clock events :
  toolCallMetadata (process_chunks (start [] ids clock) events).1
    = first_sighting_table (sightings events).
Proof. by apply process_chunks_table. Qed.

(** A delta addressed by an index that has an entry is resolved to that
    entry, and changes nothing. *)
Lemma resolve_index_only st i fn id m :
  map_entry (toolCallMetadata st) i = Some (id, m) →
  resolve_tool_call st (index_only jsany i fn)
    = (st, {| call_id := id; call_name := name m;
              call_arguments := later_arguments jsany any_truthy fn |}, index m).
Proof.
  intros Hentry. unfold OpenAI.resolve_tool_call, index_only.
  cbn [tc_id tc_index tc_function truthy_o default].
  change (Datatypes.id i) with i. by rewrite Hentry.
Qed.

(** A delta addressed by an index that has no entry takes the fallback:
    a made-up id, no name, and the fragment is dropped. *)
Lemma resolve_index_unknown st i fn :
  map_entry (toolCallMetadata st) i = None →
  resolve_tool_call st (index_only jsany i fn)
    = (set_counters st (ids_made st) (S (clock_reads st)),
       {| call_id := fallback_id (Date_now (clock_reads st)); call_name := [];
          call_arguments := inl [] |}, i).
Proof.
  intros Hentry. unfold OpenAI.resolve_tool_call, index_only.
  cbn [tc_id tc_index tc_function truthy_o default].
  change (Datatypes.id i) with i. by rewrite Hentry.
Qed.

Lemma arguments_for_snoc id (out : list (StreamChunk jsany)) c :
  arguments_for id (out ++ [c])
    = arguments_for id out ++ default [] (fragment_for id c).
Proof.
  unfold arguments_for. rewrite omap_app, concat_app. f_equal.
  simpl. destruct (fragment_for id c); simpl; by rewrite ?app_nil_r.
Qed.

Lemma register_well_keyed tbl s :
  truthy s.1 = true → well_keyed tbl → well_keyed (register tbl s).
Proof.
  unfold register, well_keyed, map_has. intros Hs [Hnd Hall].
  case_bool_decide as Hin; [done|].
  rewrite fmap_app. split.
  - apply NoDup_app. split; [done|]. split.
    + intros k Hk Hk'. apply list_elem_of_singleton in Hk'. by subst.
    + apply NoDup_singleton.
  - apply Forall_app. split; [done|]. by repeat constructor.
Qed.

Lemma sighting_truthy toolCall s :
  sighting jsany toolCall = Some s → truthy s.1 = true.
Proof.
  unfold sighting. destruct (tc_id jsany toolCall) as [k|]; [|done]. simpl.
  destruct (truthy k) eqn:Hk; [|done]. by intros [= <-].
Qed.

Lemma foldl_register_well_keyed seen : ∀ tbl,
  Forall (λ s, truthy s.1 = true) seen →
  well_keyed tbl → well_keyed (foldl register tbl seen).
Proof.
  induction seen as [|s rest IH]; intros tbl Hseen Hwk; simpl; [done|].
  inversion_clear Hseen. by apply IH, register_well_keyed.
Qed.

Lemma first_sighting_table_well_keyed events :
  well_keyed (first_sighting_table (sightings events)).
Proof.
  apply foldl_register_well_keyed.
  - unfold OpenAI.sightings. apply Forall_forall. intros s Hs.
    apply list_elem_of_omap in Hs as (c & _ & Hc). by eapply sighting_truthy.
  - split; [apply NoDup_nil_2 | constructor].
Qed.

Lemma map_get_lookup (tbl : list (jsstring * meta)) k id m :
  NoDup tbl.*1 → tbl !! k = Some (id, m) → map_get tbl id = Some m.
Proof.
  revert k. induction tbl as [|[k' v'] r IH]; intros k Hnd Hk; [done|].
  rewrite fmap_cons in Hnd. apply NoDup_cons in Hnd as [Hnotin Hnd].
  simpl. destruct k as [|k]; simpl in Hk.
  - simplify_eq. by rewrite decide_True.
  - destruct (decide (id = k')) as [->|Hne]; [|by eapply IH].
    exfalso. apply Hnotin. apply list_elem_of_fmap. exists (k', m).
    split; [done|]. by eapply list_elem_of_lookup_2.
Qed.

Lemma map_has_lookup (tbl : list (jsstring * meta)) k id m :
  tbl !! k = Some (id, m) → map_has tbl id = true.
Proof.
  intros Hk. unfold map_has. apply bool_decide_eq_true.
  apply list_elem_of_fmap. exists (id, m). split; [done|].
  by eapply list_elem_of_lookup_2.
Qed.

(** A delta that repeats a registered id is reported under that id and
    its registered index, whatever index the delta carries. *)
Lemma resolve_with_id st j fn k id m :
  well_keyed (toolCallMetadata st) →
  toolCallMetadata st !! k = Some (id, m) →
  resolve_tool_call st (with_id jsany id j fn)
    = (st, {| call_id := id; call_name := oor (fn ≫= fn_name jsany) [];
              call_arguments :=
                inl (first_arguments jsany any_truthy JSON_stringify empty_object fn) |},
       index m).
Proof.
  intros [Hnd Hall] Hk. unfold OpenAI.resolve_tool_call, with_id.
  cbn [tc_id tc_index tc_function truthy_o default].
  change (Datatypes.id id) with id.
  assert (truthy id = true) as ->.
  { eapply Forall_forall in Hall; [done|]. apply list_elem_of_fmap.
    exists (id, m). split; [done|]. by eapply list_elem_of_lookup_2. }
  rewrite (map_has_lookup _ _ _ _ Hk), (map_get_lookup _ _ _ _ Hnd Hk). done.
Qed.

(** One event that carries one tool-call delta which resolves without
    touching the state is reported as that call. *)
Lemma process_single_call st out cid cmodel toolCall id nm i frag :
  resolve_tool_call (bump_chunkCount st) toolCall
    = (bump_chunkCount st,
       {| call_id := id; call_name := nm; call_arguments := inl frag |}, i) →
  reports process_chunk st out (tool_call_chunk jsany cid cmodel [toolCall])
    id nm i frag.
Proof.
  intros Hres.
  assert (∃ xid st',
    process_chunk st (tool_call_chunk jsany cid cmodel [toolCall])
    = (st', [ToolCallChunk jsany xid
               (chunk_model jsany options_model st'
                  (tool_call_chunk jsany cid cmodel [toolCall]))
               (timestamp st')
               {| call_id := id; call_name := nm; call_arguments := inl frag |}
               i])
    ∧ toolCallMetadata st' = toolCallMetadata st) as (xid & st' & Hstep & Hsame).
  { pose proof (chunk_id_registry (bump_chunkCount st)
      (tool_call_chunk jsany cid cmodel [toolCall])) as Hreg.
    unfold OpenAI.process_chunk, OpenAI.classify, tool_call_chunk in *.
    cbn [c_type c_output c_choices truthy_o chat_completions head mbind
         option_bind ch_delta ch_finish_reason d_content d_tool_calls].
    unfold OpenAI.handle_content. cbn [mbind option_bind d_content d_tool_calls].
    cbn [OpenAI.handle_tool_calls]. unfold OpenAI.handle_tool_call.
    rewrite Hres.
    destruct (chunk_id (bump_chunkCount st) _) as [xid st2].
    cbn [fst snd] in Hreg. injection Hreg as Ht _.
    unfold OpenAI.handle_finish. cbn [finished_status truthy_o andb].
    exists xid, st2. split; [done|]. by rewrite Ht. }
  unfold reports. rewrite Hstep. cbn [fst snd].
  split; [eauto|]. split; [done|].
  rewrite arguments_for_snoc. cbn [fragment_for call_id call_arguments].
  by rewrite decide_True.
Qed.

(** C8 (amended).  The adapter's table is the first-sighting table of the
    events seen so far: each call id is registered once, when first seen,
    under the number of ids seen before it (not the provider's index) and
    the name it came with.  A later fragment that carries an index and no
    id, at an index [i] of that table, is reported under the id and name
    registered there, with index [i]; a later fragment that repeats the id
    is reported under it with the registered index [i], whatever index [j]
    it carries.  Either way the table is unchanged and the fragment is
    appended to the argument text received for that id. *)
Theorem index_only_fragment_joins_first_sighting
    (ids clock : nat) (events : list (raw_chunk jsany))
    (i : N) (id : jsstring) (m : meta) (j : option N)
    (nm : option jsstring) (frag : jsstring) (cid cmodel : option jsstring) :
  let st := (process_chunks (start [] ids clock) events).1 in
  let out := (process_chunks (start [] ids clock) events).2 in
  let fn := Some {| fn_name := nm; fn_arguments := Some (inl frag) |} in
  first_sighting_table (sightings events) !! N.to_nat i = Some (id, m) →
  toolCallMetadata st = first_sighting_table (sightings events)
  ∧ index m = i
  ∧ reports process_chunk st out
      (tool_call_chunk jsany cid cmodel [index_only jsany i fn])
      id (name m) i frag
  ∧ reports process_chunk st out
      (tool_call_chunk jsany cid cmodel [with_id jsany id j fn])
      id (oor nm []) i frag.
Proof.
  intros st out fn Hentry.
  pose proof (table_after_events ids clock events) as Htbl. fold st in Htbl.
  assert (index m = i) as Hi.
  { rewrite (first_sighting_table_indexed _ _ _ _ Hentry). lia. }
  split; [done|]. split; [done|]. split.
  - apply process_single_call.
    rewrite (resolve_index_only _ _ _ id m).
    + rewrite Hi. do 2 f_equal. subst fn. unfold later_arguments. cbn.
      by destruct frag.
    + unfold map_entry. cbn [bump_chunkCount toolCallMetadata]. by rewrite Htbl.
  - apply process_single_call.
    rewrite (resolve_with_id _ _ _ (N.to_nat i) id m).
    + by rewrite Hi.
    + cbn [bump_chunkCount toolCallMetadata]. rewrite Htbl.
      apply first_sighting_table_well_keyed.
    + cbn [bump_chunkCount toolCallMetadata]. by rewrite Htbl.
Qed.

End AdapterFacts.

Example later_delta_reported_under_first_id :
  (ex_process_chunks (start ex_Date_now [] 0 0) [ex_first_delta; ex_later_delta]).2
  = [ToolCallChunk unit (lit "chatcmpl-1") (lit "gpt-4o") 1000
       {| call_id := lit "call_1"; call_name := lit "get_weather";
          call_arguments := inl [] |} 0;
     ToolCallChunk unit (lit "chatcmpl-1") (lit "gpt-4o") 1000
       {| call_id := lit "call_1"; call_name := lit "get_weather";
          call_arguments := inl (lit "{loc") |} 0].
Proof. reflexivity. Qed.

Lemma index_only_fragment_joins_first_sighting_witness :
  first_sighting_table (ex_sightings [ex_first_delta]) !! N.to_nat 0
    = Some (lit "call_1", {| index := 0; name := lit "get_weather" |})
  ∧ reports ex_process_chunk
      (ex_process_chunks (start ex_Date_now [] 0 0) [ex_first_delta]).1
      (ex_process_chunks (start ex_Date_now [] 0 0) [ex_first_delta]).2
      ex_later_delta (lit "call_1") (lit "get_weather") 0 (lit "{loc").
Proof.
  split; [reflexivity|].
  pose proof (index_only_fragment_joins_first_sighting
    (λ _ : unit, true) (λ _, lit "{}") tt ex_generateId ex_Date_now None
    0 0 [ex_first_delta] 0%N (lit "call_1")
    {| index := 0; name := lit "get_weather" |} None
    None (lit "{loc") (Some (lit "chatcmpl-1")) (Some (lit "gpt-4o"))) as H.
  cbv zeta in H. apply H. reflexivity.
Defined.

(** C8 as stated fails when the provider's index of a call is not the
    number of calls sighted before it.  The first call of the stream comes
    with provider index 1; the adapter registers it under its own index 0,
    and the later fragment addressed by index 1 finds no entry: it is
    reported under a made-up id with empty arguments, not under [call_1]. *)
Lemma provider_index_is_not_registered :
  ¬ ∃ nm i,
      reports ex_process_chunk
        (ex_process_chunks (start ex_Date_now [] 0 0) [ex_first_at 1]).1
        (ex_process_chunks (start ex_Date_now [] 0 0) [ex_first_at 1]).2
        (ex_later_at 1) (lit "call_1") nm i (lit "{loc").
Proof.
  intros (nm & i & (xid & xmodel & ts & H) & _).
  vm_compute in H. discriminate H.
Qed.

Example unregistered_index_falls_back :
  (ex_process_chunks (start ex_Date_now [] 0 0) [ex_first_at 1; ex_later_at 1]).2
  = [ToolCallChunk unit (lit "chatcmpl-1") (lit "gpt-4o") 1000
       {| call_id := lit "call_1"; call_name := lit "get_weather";
          call_arguments := inl [] |} 0;
     ToolCallChunk unit (lit "chatcmpl-1") (lit "gpt-4o") 1000
       {| call_id := lit "call_1001"; call_name := [];
          call_arguments := inl [] |} 1].
Proof. reflexivity. Qed.

(** C9 as stated fails on an exception whose message is the empty string
    ([new Error()]): the error chunk then carries ["Unknown error
    occurred"], not the exception's message. *)
Lemma empty_message_is_replaced :
  ¬ ends_on_error
      (ex_chatStream
         (inr ([], ReadThrows unit (ThrownObject unit (Some []) None))) 0 0)
      [] None.
Proof.
  intros [_ (out & cid & mdl & ts & H)].
  vm_compute in H.
  change [?x] with ([] ++ [x]) in H at 1.
  apply app_inj_tail in H as [_ H]. discriminate H.
Qed.

End OpenAIFacts.

(* ===================================================================== *)
(** * Facts about the tool-call manager *)
(* ===================================================================== *)

Module ToolCallsFacts.
Import ToolCalls.

Lemma append_assoc (a b c : string) : (a +:+ b) +:+ c = a +:+ (b +:+ c).
Proof. induction a as [|x a IH]; [done|]. exact (f_equal (String x) IH). Qed.

Lemma append_empty_r (s : string) : s +:+ "" = s.
Proof. induction s as [|x s IH]; [done|]. exact (f_equal (String x) IH). Qed.

(** ** Accumulation *)

Lemma extend_other k frag (l : list ToolCall) :
  Forall (λ tc, id tc ≠ k) l → extend k frag <$> l = l.
Proof.
  induction 1 as [|tc l Hne _ IH]; csimpl; [done|].
  rewrite IH. unfold extend. by rewrite decide_False.
Qed.

Lemma find_other {A} (P : A → bool) l x :
  Forall (λ y, P y = false) l → List.find P (l ++ [x]) = List.find P [x].
Proof. induction 1 as [|y l Hy _ IH]; simpl; [done|]. by rewrite Hy. Qed.

Lemma unknown_entries m k :
  known m k = false → Forall (λ tc, id tc ≠ k) (entries m).
Proof.
  unfold known. rewrite bool_decide_eq_false. intros Hk.
  apply Forall_forall. intros tc Htc Heq. apply Hk.
  apply list_elem_of_fmap. eauto.
Qed.

Lemma first_chunk m k nm i frag :
  k ≠ "" → known m k = false →
  addToolCallChunk m
    {| chunk_index := i; chunk_id := k; chunk_name := nm; chunk_arguments := frag |}
  = streaming m k nm i frag.
Proof.
  intros Hk Hnew. unfold addToolCallChunk, resolve. simpl.
  rewrite decide_False by done. by rewrite Hnew.
Qed.

Lemma later_chunk m k nm i text c :
  k ≠ "" → known m k = false → addressed_to m k i c →
  addToolCallChunk (streaming m k nm i text) c
  = streaming m k nm i (text +:+ chunk_arguments c).
Proof.
  intros Hk Hnew Haddr. unfold addToolCallChunk.
  assert (resolve (streaming m k nm i text) c = Some k) as ->.
  { unfold resolve. destruct Haddr as [->|(-> & -> & Hrow)].
    - by rewrite decide_False.
    - rewrite decide_True by done. simpl. rewrite Hrow.
      apply lookup_insert_eq. }
  assert (known (streaming m k nm i text) k = true) as ->.
  { unfold known. apply bool_decide_eq_true. simpl. rewrite fmap_app.
    apply elem_of_app. right. simpl. apply list_elem_of_here. }
  unfold streaming. simpl. f_equal. rewrite fmap_app.
  rewrite extend_other by by apply unknown_entries.
  simpl. unfold extend. simpl. by rewrite decide_True.
Qed.

Lemma later_chunks rest : ∀ m k nm i text,
  k ≠ "" → known m k = false → Forall (addressed_to m k i) rest →
  foldl addToolCallChunk (streaming m k nm i text) rest
  = streaming m k nm i (text +:+ join (chunk_arguments <$> rest)).
Proof.
  induction rest as [|c rest IH]; intros m k nm i text Hk Hnew Hall; simpl.
  - by rewrite append_empty_r.
  - inversion_clear Hall. rewrite later_chunk by done. rewrite IH by done.
    by rewrite append_assoc.
Qed.

Lemma buffer_of_streaming m k nm i text :
  known m k = false → buffer_of (streaming m k nm i text) k = Some text.
Proof.
  intros Hnew. unfold buffer_of, streaming. simpl.
  rewrite find_other.
  - simpl. by rewrite bool_decide_eq_true_2.
  - eapply Forall_impl; [by apply unknown_entries|].
    intros tc Hne. by apply bool_decide_eq_false.
Qed.

Section RoundTrip.

Context {value : Type} (JSON_parse : string → option value).

(** C5.  A valid JSON text cut into one or more fragments and sent as the
    chunks of one call id that the manager has not seen (the first chunk
    carries the id; each later one carries the id or, if the index of the
    first had no row yet, no id and that index) is accumulated into a
    buffer that parses to the value of the original text, wherever the
    cuts are. *)
Theorem fragments_parse_to_original
    (m : manager) (k nm : string) (i : N) (frag : string) (rest : list chunk)
    (text : string) (v : value) :
  k ≠ "" →
  known m k = false →
  Forall (addressed_to m k i) rest →
  join (frag :: (chunk_arguments <$> rest)) = text →
  JSON_parse text = Some v →
  buffer_of
    (foldl addToolCallChunk m
       ({| chunk_index := i; chunk_id := k; chunk_name := nm;
           chunk_arguments := frag |} :: rest)) k
    ≫= JSON_parse
  = Some v.
Proof.
  intros Hk Hnew Hrest Hjoin Hvalid. simpl foldl.
  rewrite first_chunk, later_chunks, buffer_of_streaming by done.
  simpl in *. by rewrite Hjoin.
Qed.

End RoundTrip.

Lemma fragments_parse_to_original_witness :
  "call_1" ≠ ""
  ∧ known empty_manager "call_1" = false
  ∧ Forall (addressed_to empty_manager "call_1" 0) (tail ex_chunks)
  ∧ join ("[1," :: (chunk_arguments <$> tail ex_chunks)) = "[1,2,3]"
  ∧ buffer_of (foldl addToolCallChunk empty_manager ex_chunks) "call_1"
      ≫= ex_parse
    = Some [1; 2; 3].
Proof.
  assert (Forall (addressed_to empty_manager "call_1" 0) (tail ex_chunks)) as Hrest.
  { apply Forall_cons. split; [by right|].
    apply Forall_cons. split; [by left|]. constructor. }
  split; [done|]. split; [reflexivity|]. split; [exact Hrest|].
  split; [reflexivity|].
  apply (fragments_parse_to_original ex_parse empty_manager "call_1" "sum" 0
           "[1," (tail ex_chunks) "[1,2,3]" [1; 2; 3]);
    [done | reflexivity | exact Hrest | reflexivity | reflexivity].
Defined.

(** ** Execution *)

Section Execution.

Context {value : Type} (JSON_parse : string → option value)
  (JSON_stringify : value → string) (syntax_error : string → string).

Local Abbreviation run_call :=
  (run_call value JSON_parse JSON_stringify syntax_error).
Local Abbreviation execute_calls :=
  (execute_calls value JSON_parse JSON_stringify syntax_error).
Local Abbreviation executeTools :=
  (executeTools value JSON_parse JSON_stringify syntax_error).
Local Abbreviation fails := (fails value JSON_parse syntax_error).
Local Abbreviation may_run := (may_run value).
Local Abbreviation execute := (execute value).
Local Abbreviation outputContract := (outputContract value).

Ltac run_generator :=
  cbn [ToolCalls.bind ToolCalls.ret ToolCalls.yield ToolCalls.await
       ToolCalls.try_catch app].

(** The steps taken for one call yield nothing and never throw. *)
Lemma run_call_returns tools approval tc :
  ∃ result, run_call tools approval tc = ([], Ok result).
Proof.
  unfold ToolCalls.run_call, parse_arguments, invoke, check_output.
  destruct (JSON_parse (argumentsBuffer tc)) as [args|]; run_generator;
    [|by eexists].
  destruct (List.find _ tools) as [t|]; run_generator; [|by eexists].
  destruct (may_run approval t tc); run_generator; [|by eexists].
  destruct (execute t) as [run|]; run_generator; [|by eexists].
  destruct (run args) as [out|message]; run_generator; [|by eexists].
  destruct (outputContract t) as [validate|]; run_generator; [|by eexists].
  destruct (validate out) as [checked|message]; run_generator; by eexists.
Qed.

(** One turn of the loop. *)
Lemma execute_calls_step tools approval d tc rest result chunks messages :
  run_call tools approval tc = ([], Ok result) →
  execute_calls tools approval d rest = (chunks, Ok messages) →
  execute_calls tools approval d (tc :: rest)
  = match result with
    | Some r => (chunk_of d tc r :: chunks, Ok (message_of tc r :: messages))
    | None => (chunks, Ok messages)
    end.
Proof.
  intros Hcall Hrest. cbn [ToolCalls.execute_calls]. rewrite Hcall.
  destruct result as [r|]; run_generator; rewrite Hrest; [|done].
  run_generator. by rewrite app_nil_r.
Qed.

(** The generator always returns. *)
Lemma execute_calls_returns tools approval d calls :
  ∃ chunks messages,
    execute_calls tools approval d calls = (chunks, Ok messages).
Proof.
  induction calls as [|tc rest (chunks & messages & IH)]; [by eexists _, _|].
  destruct (run_call_returns tools approval tc) as [result Hcall].
  rewrite (execute_calls_step _ _ _ _ _ _ _ _ Hcall IH).
  destruct result; by eexists _, _.
Qed.

(** It treats the calls one after the other: what it does on a list is
    what it does on a first part followed by what it does on the rest. *)
Lemma execute_calls_app tools approval d l1 l2 chunks1 messages1 chunks2 messages2 :
  execute_calls tools approval d l1 = (chunks1, Ok messages1) →
  execute_calls tools approval d l2 = (chunks2, Ok messages2) →
  execute_calls tools approval d (l1 ++ l2)
  = (chunks1 ++ chunks2, Ok (messages1 ++ messages2)).
Proof.
  revert chunks1 messages1.
  induction l1 as [|tc rest IH]; intros chunks1 messages1 H1 H2.
  - cbn [ToolCalls.execute_calls] in H1. unfold ret in H1. simplify_eq.
    exact H2.
  - rewrite <- app_comm_cons.
    destruct (run_call_returns tools approval tc) as [result Hcall].
    destruct (execute_calls_returns tools approval d rest)
      as (chunks & messages & Hrest).
    rewrite (execute_calls_step _ _ _ _ _ _ _ _ Hcall Hrest) in H1.
    rewrite (execute_calls_step _ _ _ _ _ _ _ _ Hcall (IH _ _ Hrest H2)).
    destruct result; by simplify_eq.
Qed.

(** A failing call has an error result that carries the message of the
    exception. *)
Lemma fails_result tools approval tc message :
  fails tools approval tc message →
  run_call tools approval tc = ([], Ok (Some (failure message))).
Proof.
  unfold ToolCalls.run_call, parse_arguments, invoke, check_output.
  intros [Hparse | args t run e Hparse Htool Hrun Hexec Hthrows
          | args t run out validate e Hparse Htool Hrun Hexec Hout Hc Hv].
  - by rewrite Hparse.
  - rewrite Hparse. run_generator. rewrite Htool, Hrun, Hexec, Hthrows. done.
  - rewrite Hparse. run_generator. rewrite Htool, Hrun, Hexec, Hout.
    run_generator. rewrite Hc, Hv. done.
Qed.

End Execution.

Example failing_calls_then_a_good_one :
  executeTools (list nat) ex_parse ex_stringify ex_syntax_error
    ex_calls ex_tools (λ _, None) ex_done
  = ([ {| tr_id := "resp_1"; tr_model := "gpt-4o"; tr_toolCallId := "call_1";
          tr_content := "Unexpected end of JSON input"; tr_is_error := true |};
       {| tr_id := "resp_1"; tr_model := "gpt-4o"; tr_toolCallId := "call_2";
          tr_content := "out of range"; tr_is_error := true |};
       {| tr_id := "resp_1"; tr_model := "gpt-4o"; tr_toolCallId := "call_3";
          tr_content := "6"; tr_is_error := false |} ],
     Ok [ {| msg_toolCallId := "call_1";
             msg_content := "Unexpected end of JSON input" |};
          {| msg_toolCallId := "call_2"; msg_content := "out of range" |};
          {| msg_toolCallId := "call_3"; msg_content := "6" |} ]).
Proof. reflexivity. Qed.


End ToolCallsFacts.

(* ===================================================================== *)
(** * More about the line reader *)
(* ===================================================================== *)

Module LineReaderProps.
Import JS LineReader LineReaderFacts.

(** No piece of a [split('\n')] contains a newline. *)
Lemma split_nl_pieces s : Forall (λ l, NL ∉ l) (split_nl s).
Proof.
  induction s as [|c r IH]; simpl.
  - repeat constructor. apply not_elem_of_nil.
  - destruct (N.eqb_spec c NL) as [->|Hc].
    + constructor; [apply not_elem_of_nil | done].
    + pose proof (split_nl_nonempty r) as Hne.
      destruct (split_nl r) as [|l ls]; [done|].
      inversion_clear IH. constructor; [|done].
      by apply not_elem_of_cons.
Qed.

Lemma complete_pieces s : Forall (λ l, NL ∉ l) (complete s).
Proof.
  pose proof (split_nl_pieces s) as H. rewrite split_nl_snoc in H.
  by apply Forall_app in H as [H _].
Qed.

Lemma flush_lines buffer :
  NL ∉ buffer → Forall (λ l, nonblank l = true ∧ NL ∉ l) (flush buffer).
Proof.
  intros Hb. unfold flush. destruct (nonblank buffer) eqn:Hnb; by repeat constructor.
Qed.

Section Lines.

Context {dstate : Type} (dinit : dstate) (dstep : dstate → Byte.byte → dstate * jsstring).

Local Abbreviation read_loop := (read_loop dstate dstep).
Local Abbreviation readStreamLines := (readStreamLines dstate dinit dstep).

Lemma read_loop_lines aborted reads : ∀ k d buffer,
  NL ∉ buffer →
  Forall (λ l, nonblank l = true ∧ NL ∉ l) (read_loop aborted k d buffer reads).
Proof.
  induction reads as [|value rest IH]; intros k d buffer Hb; simpl.
  - destruct (aborted k); by apply flush_lines.
  - destruct (aborted k); [by apply flush_lines|].
    destruct (decode dstate dstep d value) as [d' text].
    unfold pop. fold (complete (buffer ++ text)).
    rewrite or_str_nil. fold (pending (buffer ++ text)).
    apply Forall_app. split.
    + apply Forall_forall. intros l Hl. apply list_elem_of_filter in Hl as [Hnb Hl].
      split; [done|].
      pose proof (complete_pieces (buffer ++ text)) as Hc.
      by eapply Forall_forall in Hc.
    + apply IH, pending_no_newline.
Qed.

(** X1.  Whatever the reads and whenever the signal aborts, a line that
    [readStreamLines] yields is never blank (it has a character that
    [trim] keeps) and never contains a newline. *)
Theorem yielded_lines_are_nonblank_single_lines
    (reads : list (list Byte.byte)) (abortSignal : option (nat → bool)) :
  Forall (λ line, truthy (trim line) = true ∧ NL ∉ line)
    (readStreamLines reads abortSignal).
Proof. apply read_loop_lines, not_elem_of_nil. Qed.

(** An abort seen before the [k]-th read ends the loop as the end of the
    stream would after [k] reads. *)
Lemma read_loop_abort aborted reads : ∀ j k d buffer,
  (∀ i, j ≤ i < j + k → aborted i = false) →
  aborted (j + k) = true →
  read_loop aborted j d buffer reads
  = read_loop never j d buffer (take k reads).
Proof.
  induction reads as [|value rest IH]; intros j k d buffer Hbefore Hat.
  - rewrite take_nil. simpl. by destruct (aborted j).
  - destruct k as [|k].
    + rewrite Nat.add_0_r in Hat. simpl. by rewrite Hat.
    + cbn [take LineReader.read_loop never]. unfold never at 1.
      rewrite Hbefore by lia.
      destruct (decode dstate dstep d value) as [d' text].
      destruct (pop _) as [last_line lines]. f_equal.
      apply IH.
      * intros i Hi. apply Hbefore. lia.
      * by replace (S j + k) with (j + S k) by lia.
Qed.

(** X2.  If the signal is first seen aborted before the [k]-th read, the
    lines yielded are those of a stream that ends after its first [k]
    reads: what was buffered of an unfinished line is still yielded. *)
Theorem abort_is_end_of_stream
    (reads : list (list Byte.byte)) (signal : nat → bool) (k : nat) :
  (∀ i, i < k → signal i = false) →
  signal k = true →
  readStreamLines reads (Some signal) = readStreamLines (take k reads) None.
Proof.
  intros Hbefore Hat. unfold LineReader.readStreamLines. cbn [default].
  apply (read_loop_abort signal reads 0 k); [|done].
  intros i Hi. apply Hbefore. lia.
Qed.

End Lines.

Lemma abort_is_end_of_stream_witness :
  (∀ i, i < 2 → (λ i, bool_decide (2 ≤ i)) i = false)
  ∧ LineReader.readStreamLines unit tt latin1_step sample_reads1
      (Some (λ i, bool_decide (2 ≤ i)))
    = [lit "{a}"; lit "{b"].
Proof.
  assert (∀ i, i < 2 → (λ i, bool_decide (2 ≤ i)) i = false) as Hbefore.
  { intros i Hi. apply bool_decide_eq_false. lia. }
  split; [exact Hbefore|].
  rewrite (abort_is_end_of_stream tt latin1_step sample_reads1
             (λ i, bool_decide (2 ≤ i)) 2 Hbefore); reflexivity.
Defined.

End LineReaderProps.

(* ===================================================================== *)
(** * More about the OpenAI adapter's stream *)
(* ===================================================================== *)

Module OpenAIProps.
Import JS OpenAI OpenAIFacts.

(** ** [parseResponsesStream] *)

Section Parser.

Context {jsany dstate : Type} (dinit : dstate)
  (dstep : dstate → Byte.byte → dstate * jsstring)
  (JSON_parse : jsstring → option (raw_chunk jsany)).

Local Abbreviation decode := (LineReader.decode dstate dstep).
Local Abbreviation parse_line := (parse_line jsany JSON_parse).
Local Abbreviation parse_loop := (parse_loop jsany dstate dstep JSON_parse).
Local Abbreviation parseResponsesStream :=
  (parseResponsesStream jsany dstate dinit dstep JSON_parse).

Local Abbreviation parsed := (parsed jsany JSON_parse).

Lemma parse_loop_spec fin reads : ∀ d b,
  yielded (parse_loop d (LineReader.pending b) reads fin)
  = parsed (LineReader.pending b ++ (decode d (concat reads)).2) fin.
Proof.
  induction reads as [|value rest IH]; intros d b.
  - cbn [OpenAI.parse_loop concat decode LineReader.decode snd].
    rewrite app_nil_r. unfold parsed.
    destruct fin; cbn [yielded].
    + by rewrite LineReaderFacts.split_nl_no_newline
        by apply LineReaderFacts.pending_no_newline.
    + by rewrite LineReaderFacts.complete_pending.
  - cbn [OpenAI.parse_loop concat]. rewrite LineReaderFacts.decode_app.
    destruct (decode d value) as [d' text].
    destruct (decode d' (concat rest)) as [d'' text'] eqn:Hrest.
    unfold pop. fold (LineReader.complete (LineReader.pending b ++ text)).
    rewrite LineReaderFacts.or_str_nil.
    fold (LineReader.pending (LineReader.pending b ++ text)).
    cbn [yielded snd]. rewrite IH, Hrest. cbn [snd].
    rewrite (app_assoc (LineReader.pending b) text text').
    unfold parsed. destruct fin.
    + rewrite (LineReaderFacts.split_nl_app (LineReader.pending b ++ text) text').
      by rewrite omap_app.
    + rewrite (LineReaderFacts.complete_app (LineReader.pending b ++ text) text').
      by rewrite omap_app.
Qed.

Lemma parse_loop_returns reads : ∀ d b,
  completed (parse_loop d b reads (EndOfStream jsany)) = Returned.
Proof.
  induction reads as [|value rest IH]; intros d b; simpl; [done|].
  destruct (decode d value) as [d' text]. unfold pop. simpl. apply IH.
Qed.

(** A line is parsed when it is not blank, and then without the white
    space around it. *)
Lemma omap_parse_line (lines : list jsstring) :
  omap parse_line lines
  = omap (λ line, JSON_parse (trim line))
      (filter (λ line, LineReader.nonblank line = true) lines).
Proof.
  induction lines as [|l lines IH]; [done|].
  rewrite filter_cons. cbn [omap list_omap]. fold (omap parse_line lines).
  rewrite IH. unfold OpenAI.parse_line, LineReader.nonblank.
  destruct (truthy (trim l)) eqn:Hl.
  - rewrite decide_True by done. done.
  - rewrite decide_False by (by intros ?). done.
Qed.

(** X3.  When the raw stream ends, [parseResponsesStream] returns, and the
    events it has yielded are the lines [readStreamLines] yields for the
    same reads, each trimmed and parsed, the lines that do not parse left
    out; so the events depend on the concatenated bytes only, not on how
    the reads cut them. *)
Theorem parser_is_line_reader_then_parse (reads reads' : list (list Byte.byte)) :
  concat reads = concat reads' →
  completed (parseResponsesStream reads (EndOfStream jsany)) = Returned
  ∧ yielded (parseResponsesStream reads (EndOfStream jsany))
    = omap (λ line, JSON_parse (trim line))
        (LineReader.readStreamLines dstate dinit dstep reads None)
  ∧ yielded (parseResponsesStream reads (EndOfStream jsany))
    = yielded (parseResponsesStream reads' (EndOfStream jsany)).
Proof.
  intros Hbytes.
  assert (∀ r, yielded (parseResponsesStream r (EndOfStream jsany))
               = parsed (decode dinit (concat r)).2 (EndOfStream jsany)) as Hspec.
  { intros r. unfold OpenAI.parseResponsesStream.
    change (@nil N) with (LineReader.pending []) at 1.
    by rewrite parse_loop_spec. }
  split; [|split].
  - apply parse_loop_returns.
  - rewrite Hspec, LineReaderFacts.readStreamLines_spec.
    unfold OpenAI.parsed, LineReader.lines_of, LineReader.flush.
    rewrite omap_parse_line, (LineReaderFacts.split_nl_snoc (decode _ _).2).
    rewrite filter_app. do 2 f_equal.
    rewrite filter_cons, filter_nil.
    destruct (LineReader.nonblank _) eqn:Hnb.
    + by rewrite decide_True.
    + by rewrite decide_False by (by intros ?).
  - by rewrite !Hspec, Hbytes.
Qed.

(** X4.  When a read fails, [parseResponsesStream] has yielded the events
    of the complete lines received so far, drops the text of the unfinished
    last line, and throws the exception of the read. *)
Theorem failed_read_drops_pending_line (reads : list (list Byte.byte))
    (e : thrown jsany) :
  completed (parseResponsesStream reads (ReadThrows jsany e)) = Threw e
  ∧ yielded (parseResponsesStream reads (ReadThrows jsany e))
    = omap parse_line (LineReader.complete (decode dinit (concat reads)).2).
Proof.
  split.
  - apply parse_loop_rethrows.
  - unfold OpenAI.parseResponsesStream.
    change (@nil N) with (LineReader.pending []) at 1.
    by rewrite parse_loop_spec.
Qed.

End Parser.

Lemma parser_is_line_reader_then_parse_witness :
  concat LineReader.sample_reads1 = concat LineReader.sample_reads2
  ∧ yielded (OpenAI.parseResponsesStream unit unit tt LineReader.latin1_step
               (λ _, None) LineReader.sample_reads1 (EndOfStream unit))
    = yielded (OpenAI.parseResponsesStream unit unit tt LineReader.latin1_step
                 (λ _, None) LineReader.sample_reads2 (EndOfStream unit)).
Proof.
  split; [reflexivity|].
  apply (parser_is_line_reader_then_parse tt LineReader.latin1_step (λ _, None)
           LineReader.sample_reads1 LineReader.sample_reads2).
  reflexivity.
Defined.

(** ** The chunks of [processOpenAIStreamChunks] *)

Lemma accumulated_cons acc delta content (l : list (jsstring * jsstring)) :
  accumulated acc ((delta, content) :: l) = accumulated content l.
Proof.
  unfold accumulated. rewrite fmap_cons. destruct l as [|p l]; [done|].
  rewrite fmap_cons, last_cons_cons.
  destruct (last (p.2 :: l.*2)) eqn:Hlast; [done|].
  by apply last_None in Hlast.
Qed.

Lemma accumulates_app acc l1 l2 :
  accumulates acc l1 → accumulates (accumulated acc l1) l2 →
  accumulates acc (l1 ++ l2).
Proof.
  revert acc. induction l1 as [|[delta content] l1 IH]; intros acc H1 H2; [done|].
  destruct H1 as (Hd & Hc & H1). simpl. split; [done|]. split; [done|].
  apply IH; [done|]. by rewrite accumulated_cons in H2.
Qed.

Lemma accumulated_app acc (l1 l2 : list (jsstring * jsstring)) :
  accumulated acc (l1 ++ l2) = accumulated (accumulated acc l1) l2.
Proof.
  unfold accumulated. rewrite fmap_app, last_app.
  by destruct (last l2.*2).
Qed.

Lemma well_formed_output_app {jsany} ts acc1 acc2 acc3 n1 n2
    (out1 out2 : list (StreamChunk jsany)) :
  well_formed_output ts acc1 acc2 n1 out1 →
  well_formed_output ts acc2 acc3 n2 out2 →
  well_formed_output ts acc1 acc3 (n1 + n2) (out1 ++ out2).
Proof.
  intros (Ha1 & Hb1 & Hc1 & Hd1 & He1) (Ha2 & Hb2 & Hc2 & Hd2 & He2).
  unfold well_formed_output. rewrite omap_app, filter_app, length_app.
  split; [by apply Forall_app|]. split.
  { apply accumulates_app; [done|]. by rewrite Hc1. }
  split; [by rewrite accumulated_app, Hc1|].
  split; [by rewrite Hd1, Hd2|]. by apply Forall_app.
Qed.

Lemma well_formed_output_nil {jsany} ts acc :
  well_formed_output (jsany:=jsany) ts acc acc 0 [].
Proof. unfold well_formed_output. repeat split; constructor. Qed.

Lemma oor_truthy a b : truthy b = true → truthy (oor a b) = true.
Proof.
  intros Hb. unfold oor. destruct a as [s|]; [|done].
  by destruct (truthy s) eqn:Hs.
Qed.

Section Stream.

Context {jsany : Type} (any_truthy : jsany → bool)
  (JSON_stringify : jsany → jsstring) (empty_object : jsany)
  (generateId : nat → jsstring) (Date_now : nat → N)
  (options_model : option jsstring) (type_error : thrown jsany).

Local Abbreviation start := (start Date_now).
Local Abbreviation chunk_id := (chunk_id jsany generateId).
Local Abbreviation chunk_model := (chunk_model jsany options_model).
Local Abbreviation classify := (classify jsany any_truthy JSON_stringify empty_object).
Local Abbreviation handle_content := (handle_content jsany generateId options_model).
Local Abbreviation resolve_tool_call :=
  (resolve_tool_call jsany any_truthy JSON_stringify empty_object Date_now).
Local Abbreviation handle_tool_calls :=
  (handle_tool_calls jsany any_truthy JSON_stringify empty_object generateId
     Date_now options_model).
Local Abbreviation handle_finish := (handle_finish jsany generateId options_model).
Local Abbreviation process_chunk :=
  (process_chunk jsany any_truthy JSON_stringify empty_object generateId
     Date_now options_model).
Local Abbreviation process_chunks :=
  (process_chunks jsany any_truthy JSON_stringify empty_object generateId
     Date_now options_model).
Local Abbreviation processOpenAIStreamChunks :=
  (processOpenAIStreamChunks jsany any_truthy JSON_stringify empty_object
     generateId Date_now options_model type_error).
Local Abbreviation chunk_tool_calls :=
  (chunk_tool_calls jsany any_truthy JSON_stringify empty_object).

Lemma chunk_model_truthy st chunk : truthy (chunk_model st chunk) = true.
Proof. by apply oor_truthy. Qed.

Lemma chunk_id_text st chunk : text_state (chunk_id st chunk).2 = text_state st.
Proof. unfold OpenAI.chunk_id. by repeat case_match. Qed.

Lemma classify_text st chunk : text_state (classify st chunk).1.1 = text_state st.
Proof.
  unfold OpenAI.classify.
  destruct (truthy_o (c_type jsany chunk)); [|by repeat case_match].
  unfold responses_event.
  destruct (c_response jsany chunk); by repeat case_match.
Qed.

Lemma resolve_tool_call_text st toolCall :
  text_state (resolve_tool_call st toolCall).1.1 = text_state st.
Proof. unfold OpenAI.resolve_tool_call. by repeat case_match. Qed.

Lemma handle_content_output st chunk delta :
  timestamp (handle_content st chunk delta).1 = timestamp st
  ∧ well_formed_output (timestamp st) (accumulatedContent st)
      (accumulatedContent (handle_content st chunk delta).1) 0
      (handle_content st chunk delta).2.
Proof.
  unfold OpenAI.handle_content.
  destruct (delta ≫= d_content jsany) as [text|];
    [|split; [done|apply well_formed_output_nil]].
  destruct (truthy text) eqn:Htext; [|split; [done|apply well_formed_output_nil]].
  pose proof (chunk_id_text (set_accumulated st (accumulatedContent st ++ text)) chunk)
    as Hid.
  destruct (chunk_id _ chunk) as [cid st2]. cbn [fst snd] in *.
  unfold text_state in Hid. cbn in Hid. injection Hid as Hacc Hts.
  split; [done|]. unfold well_formed_output. cbn.
  rewrite Hacc, Hts.
  split; [|split; [done|split; [done|split; [done|]]]].
  - constructor; [|constructor]. split; [done|apply chunk_model_truthy].
  - constructor; [|constructor]. intros reason [=].
Qed.

Lemma handle_tool_calls_output calls : ∀ st chunk,
  text_state (handle_tool_calls st chunk calls).1 = text_state st
  ∧ well_formed_output (timestamp st) (accumulatedContent st)
      (accumulatedContent st) (length calls)
      (handle_tool_calls st chunk calls).2.
Proof.
  induction calls as [|c rest IH]; intros st chunk; cbn [OpenAI.handle_tool_calls].
  - split; [done|apply well_formed_output_nil].
  - unfold OpenAI.handle_tool_call.
    pose proof (resolve_tool_call_text st c) as H1.
    destruct (resolve_tool_call st c) as [[st1 call] i]. cbn [fst snd] in *.
    pose proof (chunk_id_text st1 chunk) as H2.
    destruct (chunk_id st1 chunk) as [cid st2]. cbn [fst snd] in *.
    destruct (IH st2 chunk) as [H3 H4].
    destruct (handle_tool_calls st2 chunk rest) as [st3 out]. cbn [fst snd] in *.
    assert (text_state st2 = text_state st) as H12 by congruence.
    split; [congruence|].
    unfold text_state in H12. injection H12 as Hacc Hts.
    rewrite Hacc, Hts in H4.
    apply (well_formed_output_app (timestamp st) (accumulatedContent st)
             (accumulatedContent st) (accumulatedContent st) 1 (length rest)
             [_] out); [|done].
    unfold well_formed_output. cbn. rewrite Hts.
    split; [|split; [done|split; [done|split; [done|]]]].
    + constructor; [|constructor]. split; [done|apply chunk_model_truthy].
    + constructor; [|constructor]. intros reason [=].
Qed.

Lemma handle_finish_output st chunk fin :
  text_state (handle_finish st chunk fin).1 = text_state st
  ∧ well_formed_output (timestamp st) (accumulatedContent st)
      (accumulatedContent st) 0 (handle_finish st chunk fin).2.
Proof.
  unfold OpenAI.handle_finish.
  destruct (finished_status fin) eqn:Hfin;
    [|split; [done|apply well_formed_output_nil]].
  pose proof (chunk_id_text st chunk) as Hid.
  destruct (chunk_id st chunk) as [cid st1]. cbn [fst snd] in *.
  split; [done|].
  unfold text_state in Hid. injection Hid as Hacc Hts.
  unfold well_formed_output. cbn. rewrite Hts.
  split; [|split; [done|split; [done|split; [done|]]]].
  - constructor; [|constructor]. split; [done|apply chunk_model_truthy].
  - constructor; [|constructor]. intros reason [= <-].
    by destruct fin as [r|].
Qed.

(** The chunks of one event. *)
Lemma process_chunk_output st chunk :
  timestamp (process_chunk st chunk).1 = timestamp st
  ∧ well_formed_output (timestamp st) (accumulatedContent st)
      (accumulatedContent (process_chunk st chunk).1)
      (length (chunk_tool_calls chunk))
      (process_chunk st chunk).2.
Proof.
  unfold OpenAI.process_chunk.
  pose proof (classify_text (bump_chunkCount st) chunk) as H1.
  pose proof (classify_tool_calls any_truthy JSON_stringify empty_object
                (bump_chunkCount st) chunk) as Hcalls.
  destruct (classify _ chunk) as [[st1 delta] fin]. cbn [fst snd] in *.
  unfold text_state in H1. cbn in H1. injection H1 as Hacc1 Hts1.
  destruct (handle_content_output st1 chunk delta) as [Hts2 Hout1].
  destruct (handle_content st1 chunk delta) as [st2 out1]. cbn [fst snd] in *.
  assert (∃ st3 out2,
    match delta ≫= d_tool_calls jsany with
    | Some calls => handle_tool_calls st2 chunk calls
    | None => (st2, [])
    end = (st3, out2)
    ∧ text_state st3 = text_state st2
    ∧ well_formed_output (timestamp st2) (accumulatedContent st2)
        (accumulatedContent st2) (length (chunk_tool_calls chunk)) out2)
    as (st3 & out2 & -> & Htext3 & Hout2).
  { rewrite <- Hcalls.
    destruct (delta ≫= d_tool_calls jsany) as [calls|]; cbn [default].
    - destruct (handle_tool_calls_output calls st2 chunk) as [Ha Hb].
      destruct (handle_tool_calls st2 chunk calls) as [st3 out2]. eauto.
    - eexists _, _. split; [done|]. split; [done|]. apply well_formed_output_nil. }
  destruct (handle_finish_output st3 chunk fin) as [Htext4 Hout3].
  destruct (handle_finish st3 chunk fin) as [st4 out3]. cbn [fst snd] in *.
  unfold text_state in Htext3, Htext4.
  injection Htext3 as Hacc3 Hts3. injection Htext4 as Hacc4 Hts4.
  split; [congruence|].
  rewrite Hts1, Hacc1 in Hout1. rewrite Hts2, Hts1 in Hout2.
  rewrite Hts3, Hts2, Hts1, Hacc3 in Hout3. rewrite Hacc4, Hacc3.
  replace (length (chunk_tool_calls chunk))
    with (0 + (length (chunk_tool_calls chunk) + 0)) by lia.
  eapply well_formed_output_app; [exact Hout1|].
  eapply well_formed_output_app; [exact Hout2|exact Hout3].
Qed.

(** The chunks of a run of events. *)
Lemma process_chunks_output events : ∀ st,
  timestamp (process_chunks st events).1 = timestamp st
  ∧ well_formed_output (timestamp st) (accumulatedContent st)
      (accumulatedContent (process_chunks st events).1)
      (length (events ≫= chunk_tool_calls))
      (process_chunks st events).2.
Proof.
  induction events as [|chunk rest IH]; intros st; cbn [OpenAI.process_chunks].
  - split; [done|apply well_formed_output_nil].
  - destruct (process_chunk_output st chunk) as [Hts1 Hout1].
    destruct (process_chunk st chunk) as [st1 out1]. cbn [fst snd] in *.
    destruct (IH st1) as [Hts2 Hout2].
    destruct (process_chunks st1 rest) as [st2 out2]. cbn [fst snd] in *.
    rewrite Hts1 in *. split; [done|].
    cbn [mbind list_bind]. rewrite length_app.
    by apply well_formed_output_app with (acc2 := accumulatedContent st1).
Qed.

(** The chunks of a whole run of the generator, however the provider
    stream ends. *)
Lemma process_stream_output stream tbl ids clock :
  ∃ acc,
    well_formed_output (Date_now clock) [] acc
      (length (yielded stream ≫= chunk_tool_calls))
      (yielded (processOpenAIStreamChunks stream tbl ids clock)).
Proof.
  unfold OpenAI.processOpenAIStreamChunks.
  destruct (process_chunks_output (yielded stream) (start tbl ids clock))
    as [Hts Hout].
  destruct (process_chunks (start tbl ids clock) (yielded stream)) as [st out].
  cbn [fst snd] in *. cbn [OpenAI.start timestamp accumulatedContent] in *.
  destruct (completed stream) as [|[message code|]]; cbn [yielded on_error].
  - eauto.
  - exists (accumulatedContent st).
    replace (length (yielded stream ≫= chunk_tool_calls))
      with (length (yielded stream ≫= chunk_tool_calls) + 0) by lia.
    eapply well_formed_output_app; [exact Hout|].
    unfold well_formed_output. cbn. rewrite Hts.
    split; [|split; [done|split; [done|split; [done|]]]].
    + constructor; [|constructor]. split; [done|]. by apply oor_truthy.
    + constructor; [|constructor]. intros reason [=].
  - rewrite app_nil_r. eauto.
Qed.

(** X5.  The content chunks of a run carry a running text: no content
    chunk has an empty [delta], the [content] of the first one is its own
    [delta], and the [content] of each later one is the [content] of the
    content chunk before it followed by its own [delta], whatever other
    chunks come in between and however the provider stream ends. *)
Theorem content_is_running_concatenation
    (stream : run (thrown jsany) (raw_chunk jsany))
    (tbl : list (jsstring * meta)) (ids clock : nat) :
  accumulates []
    (omap content_of (yielded (processOpenAIStreamChunks stream tbl ids clock))).
Proof.
  destruct (process_stream_output stream tbl ids clock) as (acc & _ & H & _).
  exact H.
Qed.

(** X6.  Every chunk of a run, the error chunk included, carries the time
    read once when the generator started, not the time the chunk was made,
    and a model name that is not empty. *)
Theorem chunks_share_start_timestamp
    (stream : run (thrown jsany) (raw_chunk jsany))
    (tbl : list (jsstring * meta)) (ids clock : nat) :
  Forall (λ c, chunk_timestamp c = Date_now clock
               ∧ truthy (chunk_model_name c) = true)
    (yielded (processOpenAIStreamChunks stream tbl ids clock)).
Proof.
  destruct (process_stream_output stream tbl ids clock) as (acc & H & _).
  exact H.
Qed.

(** The tool calls the loop body iterates over are the function calls
    the event announces. *)
Lemma chunk_tool_calls_length chunk :
  length (chunk_tool_calls chunk) = function_calls jsany chunk.
Proof.
  unfold OpenAI.chunk_tool_calls, OpenAI.classify, OpenAI.function_calls.
  destruct (truthy_o (c_type jsany chunk)).
  - unfold responses_event.
    repeat (case_match; simplify_eq/=; try done).
  - destruct (c_output jsany chunk) as [output|].
    + unfold legacy_output. cbn [fst snd].
      destruct (List.filter _ output) as [|item items] eqn:Hitems.
      * by repeat case_match.
      * cbn [with_tool_calls mbind option_bind d_tool_calls default].
        unfold Datatypes.id. by rewrite length_fmap.
    + by destruct (c_choices jsany chunk).
Qed.

Lemma tool_calls_of_events (events : list (raw_chunk jsany)) :
  length (events ≫= chunk_tool_calls)
  = sum_list (function_calls jsany <$> events).
Proof.
  induction events as [|chunk rest IH]; [done|].
  cbn [mbind list_bind]. rewrite length_app, fmap_cons. cbn [sum_list sum_list_with].
  fold (rest ≫= chunk_tool_calls). by rewrite IH, chunk_tool_calls_length.
Qed.

(** X7.  For provider events that are objects of the declared shapes, the
    generator yields exactly one [tool_call] chunk for each function call
    the events announce: for each [function_call] item of an
    [response.output_item.added] event or of an [output] array, and for
    each entry of [choices[0].delta.tool_calls]; also for a call it cannot
    resolve, and however the provider stream ends. *)
Theorem one_tool_call_chunk_per_delta
    (events : list (raw_chunk jsany)) (fin : completion (thrown jsany))
    (tbl : list (jsstring * meta)) (ids clock : nat) :
  length (filter (λ c, is_tool_call_chunk c = true)
            (yielded (processOpenAIStreamChunks (Run events fin) tbl ids clock)))
  = sum_list (function_calls jsany <$> events).
Proof.
  destruct (process_stream_output (Run events fin) tbl ids clock)
    as (acc & _ & _ & _ & H & _).
  rewrite H. apply tool_calls_of_events.
Qed.

(** X8.  A done chunk never carries an empty finish reason nor
    ["in_progress"]: an item that is still in progress does not end the
    turn. *)
Theorem done_never_in_progress
    (stream : run (thrown jsany) (raw_chunk jsany))
    (tbl : list (jsstring * meta)) (ids clock : nat) :
  Forall (λ c, ∀ reason, finish_of c = Some reason →
                 truthy reason = true ∧ reason ≠ lit "in_progress")
    (yielded (processOpenAIStreamChunks stream tbl ids clock)).
Proof.
  destruct (process_stream_output stream tbl ids clock) as (acc & _ & _ & _ & _ & H).
  eapply Forall_impl; [exact H|]. intros c Hc reason Hreason.
  specialize (Hc reason Hreason). unfold finished_status in Hc. cbn in Hc.
  apply andb_true_iff in Hc as [Ht Hn]. split; [done|].
  apply negb_true_iff in Hn. unfold str_eqb in Hn.
  by apply bool_decide_eq_false in Hn.
Qed.

Local Abbreviation sightings :=
  (sightings jsany any_truthy JSON_stringify empty_object).

Lemma register_prefix tbl s : tbl `prefix_of` register tbl s.
Proof.
  unfold register. destruct (map_has tbl s.1); [done|]. by apply prefix_app_r.
Qed.

Lemma foldl_register_prefix seen : ∀ tbl, tbl `prefix_of` foldl register tbl seen.
Proof.
  induction seen as [|s rest IH]; intros tbl; simpl; [done|].
  etrans; [apply register_prefix|apply IH].
Qed.

(** X9.  The adapter's table only grows: the table after more events
    starts with the table before them, so a call id keeps the index and
    the name it was registered with.  At every point the ids of the table
    are distinct and not empty, the entry at position [k] has index [k], and
    the next index to give out is the size of the table. *)
Theorem table_only_grows (ids clock : nat) (events more : list (raw_chunk jsany)) :
  let tbl := toolCallMetadata (process_chunks (start [] ids clock) events).1 in
  let tbl' := toolCallMetadata (process_chunks (start [] ids clock) (events ++ more)).1 in
  tbl `prefix_of` tbl'
  ∧ NoDup tbl.*1
  ∧ Forall (λ k, truthy k = true) tbl.*1
  ∧ (∀ k id m, tbl !! k = Some (id, m) → index m = N.of_nat k)
  ∧ nextIndex (process_chunks (start [] ids clock) events).1 = N.of_nat (length tbl).
Proof.
  intros tbl tbl'. subst tbl tbl'.
  rewrite !(table_after_events any_truthy JSON_stringify empty_object generateId
              Date_now options_model).
  split.
  { unfold OpenAI.sightings, first_sighting_table.
    rewrite bind_app, omap_app, foldl_app. apply foldl_register_prefix. }
  destruct (first_sighting_table_well_keyed any_truthy JSON_stringify empty_object
              events) as [Hnd Hall].
  split; [done|]. split; [done|]. split.
  { apply first_sighting_table_indexed. }
  destruct (process_chunks_table any_truthy JSON_stringify empty_object generateId
              Date_now options_model events (start [] ids clock)) as [Htbl Hsync];
    [done|].
  unfold synced in Hsync. rewrite Hsync. by rewrite Htbl.
Qed.

End Stream.

Example content_chunks_run :
  omap content_of
    (ex_process_chunks (start ex_Date_now [] 0 0)
       [ {| c_type := None; c_response := None; c_delta := None; c_item := None;
            c_output := None;
            c_choices := Some [ {| ch_delta := Some {| d_content := Some (lit "Hi");
                                                       d_tool_calls := None |};
                                   ch_finish_reason := None |} ];
            c_id := None; c_model := None; c_usage := None |};
         ex_first_delta;
         {| c_type := None; c_response := None; c_delta := None; c_item := None;
            c_output := None;
            c_choices := Some [ {| ch_delta := Some {| d_content := Some (lit " there");
                                                       d_tool_calls := None |};
                                   ch_finish_reason := Some (lit "stop") |} ];
            c_id := None; c_model := None; c_usage := None |} ]).2
  = [(lit "Hi", lit "Hi"); (lit " there", lit "Hi there")].
Proof. reflexivity. Qed.

End OpenAIProps.

(* ===================================================================== *)
(** * The OpenAI adapter's calls that are not streamed *)
(* ===================================================================== *)

Module OpenAICallsProps.
Import JS OpenAI.

Section Calls.

Context {jsany : Type} (any_truthy : jsany → bool)
  (JSON_stringify : jsany → jsstring) (empty_object : jsany)
  (generateId : nat → jsstring) (Date_now : nat → N)
  (type_error : thrown jsany).

Local Abbreviation mapOpenAIResponseToChatResult :=
  (mapOpenAIResponseToChatResult jsany JSON_stringify type_error).
Local Abbreviation legacy_output :=
  (legacy_output jsany any_truthy JSON_stringify empty_object).

Lemma names_agree (items : list (output_item jsany)) :
  call_names (result_call jsany JSON_stringify <$> items)
  = delta_names jsany
      (function_call_delta jsany any_truthy JSON_stringify empty_object <$> items).
Proof.
  unfold call_names, delta_names. rewrite <- !list_fmap_compose.
  by apply list_fmap_ext.
Qed.

(** X10.  [mapOpenAIResponseToChatResult] throws exactly on a reply whose
    message item has an empty [content] array.  Otherwise its result reads
    the output as the streaming path reads the same output array: a
    content that is not empty is the streamed content delta, the tool
    calls have the ids and names of the streamed tool-call deltas in the
    same order ([toolCalls] is [undefined] exactly when there is no
    function call), and a finish reason that is not empty is the streamed
    one. *)
Theorem completion_reads_output_as_stream (response : api_response jsany) :
  match mapOpenAIResponseToChatResult response with
  | inl e =>
      e = type_error
      ∧ ∃ item, List.find (is_type jsany "message") (resp_output jsany response)
                = Some item
                ∧ it_content jsany item = Some []
  | inr res =>
      let streamed := legacy_output (resp_output jsany response) in
      (truthy (res_content res) = true →
       streamed.1 ≫= d_content jsany = Some (res_content res))
      ∧ call_names (default [] (res_toolCalls res))
        = delta_names jsany (default [] (streamed.1 ≫= d_tool_calls jsany))
      ∧ (res_toolCalls res = None
         ↔ List.filter (is_type jsany "function_call") (resp_output jsany response) = [])
      ∧ (truthy_o (res_finishReason res) = true →
         streamed.2 = res_finishReason res)
  end.
Proof.
  unfold OpenAI.mapOpenAIResponseToChatResult, OpenAI.legacy_output, first_text.
  destruct (List.find (is_type jsany "message") (resp_output jsany response))
    as [item|] eqn:Hitem; cbn [mbind option_bind].
  - destruct (it_content jsany item) as [[|c rest]|] eqn:Hcontent.
    + split; [done|]. by exists item.
    + cbn [res_content res_toolCalls res_finishReason fst snd mbind option_bind].
      split; [|split; [|split]].
      * unfold output_text. cbn [List.find].
        destruct (str_eqb (cp_type c) (lit "output_text")); [|done].
        unfold oor. destruct (cp_text c) as [t|]; [|done].
        cbn [truthy_o]. destruct (truthy t) eqn:Ht; [|done]. intros _.
        by destruct (List.filter _ _).
      * destruct (List.filter (is_type jsany "function_call") _) as [|fc fcs] eqn:Hf.
        -- by destruct (output_text (c :: rest)).
        -- cbn [default mbind option_bind with_tool_calls d_tool_calls].
           apply names_agree.
      * by destruct (List.filter (is_type jsany "function_call") _).
      * intros Hfin. by rewrite Hfin.
    + cbn [res_content res_toolCalls res_finishReason fst snd mbind option_bind].
      split; [done|]. split; [|split].
      * destruct (List.filter (is_type jsany "function_call") _) as [|fc fcs] eqn:Hf;
          [done|].
        cbn [default mbind option_bind with_tool_calls d_tool_calls].
        apply names_agree.
      * by destruct (List.filter (is_type jsany "function_call") _).
      * intros Hfin. by rewrite Hfin.
  - cbn [res_content res_toolCalls res_finishReason fst snd mbind option_bind].
    split; [done|]. split; [|split].
    + destruct (List.filter (is_type jsany "function_call") _) as [|fc fcs] eqn:Hf;
        [done|].
      cbn [default mbind option_bind with_tool_calls d_tool_calls].
      apply names_agree.
    + by destruct (List.filter (is_type jsany "function_call") _).
    + done.
Qed.

End Calls.

(** ** [generateImage] *)

(** One batch less is needed once a batch has been taken off. *)
Lemma ceil_div_step (x M : Z) :
  (1 ≤ M)%Z → (1 ≤ x)%Z →
  ((x - Z.min M x + M - 1) / M = (x + M - 1) / M - 1)%Z.
Proof.
  intros HM Hx. destruct (Z.min_spec M x) as [[Hlt ->]|[Hle ->]].
  - replace (x - M + M - 1)%Z with (x + M - 1 + (-1) * M)%Z by lia.
    rewrite Z.div_add by lia. lia.
  - replace (x - x + M - 1)%Z with (M - 1)%Z by lia.
    rewrite Z.div_small by lia.
    symmetry. apply Z.sub_move_r. simpl.
    symmetry. apply (Z.div_unique _ _ 1 (x - 1)); lia.
Qed.

Lemma ceil_div_zero (x M : Z) :
  (1 ≤ M)%Z → (0 ≤ x)%Z → ((x + M - 1) / M = 0)%Z → x = 0%Z.
Proof.
  intros HM Hx Hdiv.
  destruct (decide (x = 0%Z)) as [|Hne]; [done|].
  assert (1 ≤ (x + M - 1) / M)%Z; [|lia].
  apply Z.div_le_lower_bound; lia.
Qed.

Lemma nor_positive a b : (1 ≤ b)%N → (1 ≤ nor a b)%N.
Proof. intros Hb. unfold nor. destruct a as [[|p]|]; lia. Qed.

Section Images.

Context {jsany : Type} (generateId : nat → jsstring) (Date_now : nat → N)
  (atob : jsstring → option jsstring) (atob_error : thrown jsany)
  (images_generate :
     nat → image_request jsany → thrown jsany + option (list (option jsstring))).

Local Abbreviation add_images := (add_images jsany atob atob_error).
Local Abbreviation image_calls := (image_calls jsany atob atob_error images_generate).
Local Abbreviation generateImage :=
  (generateImage jsany generateId Date_now atob atob_error images_generate).
Local Abbreviation delivers := (delivers jsany atob images_generate).
Local Abbreviation numImages := (numImages jsany).
Local Abbreviation maxPerCall := (maxPerCall jsany).
Local Abbreviation numCalls := (numCalls jsany).
Local Abbreviation rq_n := (rq_n jsany).

Lemma numImages_positive o : (1 ≤ numImages o)%Z.
Proof.
  unfold OpenAI.numImages. pose proof (nor_positive (io_n jsany o) 1). lia.
Qed.

Lemma maxPerCall_positive o : (1 ≤ maxPerCall o)%Z.
Proof.
  unfold OpenAI.maxPerCall.
  pose proof (nor_positive (io_maxImagesPerCall jsany o)
    (if str_eqb (io_model jsany o) (lit "dall-e-3") then 1 else 10)%N) as H.
  destruct (str_eqb _ _); lia.
Qed.

Lemma request_n o x :
  io_providerOptions jsany o ≫= po_n jsany = None →
  rq_n (request_params jsany o x) = x.
Proof.
  unfold request_params. destruct (io_providerOptions jsany o) as [po|]; [|done].
  simpl. by intros ->.
Qed.

Lemma add_images_delivered data : ∀ allImages,
  Forall (λ image, ∃ b64, image = Some b64 ∧ truthy b64 = true
                          ∧ is_Some (atob (strip_data_url b64))) data →
  ∃ allImages', add_images data allImages = inr allImages'
                ∧ length allImages' = length allImages + length data.
Proof.
  induction data as [|image rest IH]; intros allImages Hall;
    cbn [OpenAI.add_images].
  - exists allImages. split; [done|simpl; lia].
  - inversion_clear Hall as [|? ? (b64 & -> & Hb & [bin Hbin]) Hrest].
    cbn [truthy_o default]. rewrite Hb. change (Datatypes.id b64) with b64.
    unfold OpenAI.base64ToUint8Array. rewrite Hbin.
    edestruct IH as (all' & Heq & Hlen); [exact Hrest|].
    rewrite Heq. exists all'. split; [done|].
    rewrite length_app in Hlen. simpl in *. lia.
Qed.

Lemma image_calls_delivered o : ∀ remaining k allImages,
  delivers →
  io_providerOptions jsany o ≫= po_n jsany = None →
  (Z.of_nat (length allImages) ≤ numImages o)%Z →
  Z.of_nat remaining
    = ((numImages o - Z.of_nat (length allImages) + maxPerCall o - 1)
       / maxPerCall o)%Z →
  ∃ sent allImages',
    image_calls o remaining k allImages = (sent, inr allImages')
    ∧ Z.of_nat (length allImages') = numImages o
    ∧ length sent = remaining
    ∧ Forall (λ rq, 1 ≤ rq_n rq ≤ maxPerCall o)%Z sent
    ∧ total_requested jsany sent
      = (numImages o - Z.of_nat (length allImages))%Z.
Proof.
  pose proof (maxPerCall_positive o) as HM.
  induction remaining as [|remaining IH]; intros k allImages Hdel Hn Hle Hrem.
  - exists [], allImages. simpl.
    assert (numImages o - Z.of_nat (length allImages) = 0)%Z as Hzero.
    { apply (ceil_div_zero _ (maxPerCall o)); [done|lia|]. by rewrite <- Hrem. }
    repeat split; [lia|constructor|lia].
  - assert (1 ≤ numImages o - Z.of_nat (length allImages))%Z as Hx.
    { destruct (decide (numImages o - Z.of_nat (length allImages) = 0)%Z) as [E|];
        [|lia].
      rewrite E in Hrem. rewrite Z.div_small in Hrem by lia. lia. }
    cbn [OpenAI.image_calls].
    set (n := Z.min (maxPerCall o) (numImages o - Z.of_nat (length allImages))).
    assert (1 ≤ n ≤ maxPerCall o)%Z as Hnrange by (subst n; lia).
    destruct (Hdel k (request_params jsany o n)) as (data & -> & Hlen & Hdata).
    rewrite request_n in Hlen by done. cbn [default].
    change (Datatypes.id data) with data.
    destruct (add_images_delivered data allImages Hdata) as (all' & -> & Hlen').
    destruct (IH (S k) all' Hdel Hn) as (sent & final & -> & Hfinal & Hsent & Hall & Hsum).
    + rewrite Hlen', Hlen. subst n. lia.
    + rewrite Hlen', Hlen, Nat2Z.inj_add, Z2Nat.id by lia.
      replace (numImages o - (Z.of_nat (length allImages) + n) + maxPerCall o - 1)%Z
        with (numImages o - Z.of_nat (length allImages) - n + maxPerCall o - 1)%Z
        by lia.
      subst n. rewrite ceil_div_step by lia. lia.
    + exists (request_params jsany o n :: sent), final.
      split; [done|]. split; [done|]. split; [simpl; lia|]. split.
      * constructor; [|done]. by rewrite request_n.
      * cbn [total_requested foldr]. fold (total_requested jsany sent).
        rewrite Hsum, request_n by done.
        rewrite Hlen', Hlen, Nat2Z.inj_add, Z2Nat.id by lia. lia.
Qed.

(** X11.  With an image API that returns what it is asked for, and no
    provider option that overrides [n], [generateImage] sends
    [ceil(numImages / maxPerCall)] requests, each for at least one and at
    most [maxPerCall] images, together for exactly [numImages] images, and
    returns that many: one [image] when one was asked for, [images] of
    length [numImages] otherwise. *)
Theorem images_come_in_full_batches (o : ImageGenerationOptions jsany)
    (ids clock : nat) :
  delivers →
  io_providerOptions jsany o ≫= po_n jsany = None →
  ∃ sent result,
    generateImage o ids clock = (sent, inr result)
    ∧ length sent = numCalls o
    ∧ Forall (λ rq, 1 ≤ rq_n rq ≤ maxPerCall o)%Z sent
    ∧ total_requested jsany sent = numImages o
    ∧ match payload result with
      | OneImage image => numImages o = 1%Z ∧ is_Some image
      | ManyImages images =>
          numImages o ≠ 1%Z ∧ Z.of_nat (length images) = numImages o
      end.
Proof.
  intros Hdel Hn.
  pose proof (numImages_positive o) as HN.
  pose proof (maxPerCall_positive o) as HM.
  destruct (image_calls_delivered o (numCalls o) 0 [] Hdel Hn)
    as (sent & all & Hcalls & Hall & Hsent & Hrange & Hsum).
  { simpl. lia. }
  { unfold OpenAI.numCalls. simpl. rewrite Z.sub_0_r. rewrite Z2Nat.id; [done|].
    apply Z.div_pos; lia. }
  unfold OpenAI.generateImage. rewrite Hcalls.
  eexists sent, _. split; [done|]. split; [done|]. split; [done|].
  split; [simpl in Hsum; lia|]. cbn [payload].
  destruct (Z.eqb_spec (numImages o) 1) as [Hone|Hmany].
  - split; [done|]. destruct all; [simpl in Hall; lia|]. by eexists.
  - done.
Qed.

End Images.

Example twelve_images_in_two_calls :
  (rq_n unit <$>
     (generateImage unit ex_generateId ex_Date_now ex_atob ex_type_error
        ex_images_generate ex_image_options 0 0).1)
  = [10%Z; 2%Z].
Proof. reflexivity. Qed.

Lemma images_come_in_full_batches_witness :
  delivers unit ex_atob ex_images_generate
  ∧ ∃ sent result,
      generateImage unit ex_generateId ex_Date_now ex_atob ex_type_error
        ex_images_generate ex_image_options 0 0 = (sent, inr result)
      ∧ length sent = numCalls unit ex_image_options
      ∧ Forall (λ rq, 1 ≤ rq_n unit rq ≤ maxPerCall unit ex_image_options)%Z sent
      ∧ total_requested unit sent = numImages unit ex_image_options
      ∧ match payload result with
        | OneImage image => numImages unit ex_image_options = 1%Z ∧ is_Some image
        | ManyImages images =>
            numImages unit ex_image_options ≠ 1%Z
            ∧ Z.of_nat (length images) = numImages unit ex_image_options
        end.
Proof.
  assert (delivers unit ex_atob ex_images_generate) as Hdel.
  { intros k rq. eexists. split; [reflexivity|]. split; [apply length_replicate|].
    apply Forall_replicate. exists (lit "QUJD"). split; [reflexivity|].
    split; [reflexivity|]. by eexists. }
  split; [exact Hdel|].
  apply (images_come_in_full_batches ex_generateId ex_Date_now ex_atob
           ex_type_error ex_images_generate ex_image_options 0 0 Hdel).
  reflexivity.
Defined.

End OpenAICallsProps.
(* ===================================================================== *)
(** * The fetch adapters: request and server-sent events *)
(* ===================================================================== *)

Module FetchProps.
Import JS LineReader.

(** ** The request *)

Lemma lookup_union_left_biased {A} (m1 m2 : gmap string A) key :
  (m1 ∪ m2) !! key
  = match m1 !! key with Some value => Some value | None => m2 !! key end.
Proof.
  rewrite lookup_union. by destruct (m1 !! key), (m2 !! key).
Qed.

Lemma mergeHeaders_object entries key :
  mergeHeaders (HeadersObject entries) !! key = last_value key entries.
Proof.
  unfold last_value. cbn [mergeHeaders].
  induction entries as [|[k v] entries IH] using rev_ind; [done|].
  rewrite foldl_app, filter_app. cbn [foldl].
  destruct (decide (k = key)) as [->|Hne].
  - rewrite lookup_insert_eq.
    rewrite (filter_cons_True _ (key, v)) by done.
    by rewrite filter_nil, last_snoc.
  - rewrite lookup_insert_ne by done.
    rewrite (filter_cons_False _ (k, v)) by done.
    by rewrite filter_nil, app_nil_r.
Qed.

Lemma mergeHeaders_lookup h key : mergeHeaders h !! key = custom_header h key.
Proof.
  destruct h; [done| |done]. apply mergeHeaders_object.
Qed.

(** X12.  In the request of the fetch adapters the caller's values win: a
    header the caller gave is sent with the caller's value (for a [Headers]
    object, the one visited last), [Content-Type: application/json] is sent
    only when the caller gave no header of exactly that name, and no other
    header is sent; a field of [options.body] replaces [messages] and
    [data], which are sent otherwise. *)
Theorem caller_values_override_request {any : Type}
    (resolvedOptions : FetchConnectionOptions any)
    (modelMessages : any) (data : option any) (abortSignal : option string)
    (key : string) :
  init_headers any (request_init any resolvedOptions modelMessages data abortSignal)
    !! key
  = match custom_header (opt_headers any resolvedOptions) key with
    | Some value => Some value
    | None => if decide (key = "Content-Type") then Some "application/json"
              else None
    end
  ∧ init_body any (request_init any resolvedOptions modelMessages data abortSignal)
      !! key
    = match opt_body any resolvedOptions ≫= (.!! key) with
      | Some value => Some value
      | None => if decide (key = "messages") then Some (Some modelMessages)
                else if decide (key = "data") then Some data
                else None
      end.
Proof.
  cbn [request_init init_headers init_body]. split.
  - rewrite lookup_union_left_biased, mergeHeaders_lookup.
    destruct (custom_header _ key) as [value|]; [done|].
    destruct (decide (key = "Content-Type")) as [->|Hne].
    + by rewrite lookup_singleton_eq.
    + by rewrite lookup_singleton_ne.
  - rewrite lookup_union_left_biased.
    assert (Hbody : default ∅ (opt_body any resolvedOptions) !! key
                    = opt_body any resolvedOptions ≫= (.!! key)).
    { destruct (opt_body any resolvedOptions); [done|]. apply lookup_empty. }
    rewrite Hbody.
    destruct (opt_body any resolvedOptions ≫= (.!! key)) as [value|]; [done|].
    destruct (decide (key = "messages")) as [->|Hm].
    { by rewrite lookup_insert_eq. }
    rewrite lookup_insert_ne by done.
    destruct (decide (key = "data")) as [->|Hd].
    + by rewrite lookup_singleton_eq.
    + by rewrite lookup_singleton_ne.
Qed.

(** Header names are compared as they are written: a record that names
    [content-type] in lower case adds a header, it does not replace
    [Content-Type]. *)
Example lower_case_content_type_is_added :
  let init :=
    request_init unit
      {| opt_headers := HeadersRecord {[ "content-type" := "text/plain" ]};
         opt_credentials := None; opt_signal := None; opt_body := None |}
      tt None None in
  init_headers unit init !! "Content-Type" = Some "application/json"
  ∧ init_headers unit init !! "content-type" = Some "text/plain".
Proof. by vm_compute. Qed.

(** ** Server-sent events *)

Section Events.

Context {dstate StreamChunk : Type} (dinit : dstate)
  (dstep : dstate → Byte.byte → dstate * jsstring)
  (JSON_parse : jsstring → option StreamChunk).

Local Abbreviation readStreamLines := (readStreamLines dstate dinit dstep).
Local Abbreviation sse_line := (sse_line StreamChunk JSON_parse).
Local Abbreviation fetchServerSentEvents_connect :=
  (fetchServerSentEvents_connect dstate dinit dstep StreamChunk JSON_parse).
Local Abbreviation fetchHttpStream_connect :=
  (fetchHttpStream_connect dstate dinit dstep StreamChunk JSON_parse).

Lemma sse_line_parse line :
  JSON_parse (lit "[DONE]") = None →
  sse_line line = JSON_parse (event_data line).
Proof.
  intros Hdone. unfold LineReader.sse_line. fold (event_data line).
  unfold str_eqb. case_bool_decide as Heq; [|done].
  by rewrite Heq, Hdone.
Qed.

Lemma omap_sse_lines (lines : list jsstring) :
  JSON_parse (lit "[DONE]") = None →
  omap sse_line lines = omap JSON_parse (event_data <$> lines).
Proof.
  intros Hdone. induction lines as [|line lines IH]; [done|].
  rewrite fmap_cons. cbn [omap list_omap].
  fold (omap sse_line lines). fold (omap JSON_parse (event_data <$> lines)).
  by rewrite IH, sse_line_parse.
Qed.

Lemma event_data_plain (lines : list jsstring) :
  Forall (λ line, startsWith (lit "data: ") line = false) lines →
  event_data <$> lines = lines.
Proof.
  induction 1 as [|line lines Hline _ IH]; [done|].
  rewrite fmap_cons, IH. unfold event_data. by rewrite Hline.
Qed.

(** X13.  With a [JSON.parse] that rejects [[DONE]] (as JavaScript's does),
    the server-sent-events adapter is the raw HTTP adapter run on the lines
    with their [data: ] prefix removed: it fails on the same responses with
    the same error, it yields the chunks parsed from the stripped lines, and
    on a stream none of whose lines starts with [data: ] the two adapters
    yield the same chunks. *)
Theorem sse_adapter_is_http_adapter_on_event_data
    (r : response) (abortSignal : option (nat → bool)) :
  JSON_parse (lit "[DONE]") = None →
  (∀ e, fetchServerSentEvents_connect r abortSignal = inl e
        ↔ fetchHttpStream_connect r abortSignal = inl e)
  ∧ (∀ reads, ok r = true → body r = Some reads →
       fetchServerSentEvents_connect r abortSignal
       = inr (omap JSON_parse (event_data <$> readStreamLines reads abortSignal))
       ∧ (Forall (λ line, startsWith (lit "data: ") line = false)
            (readStreamLines reads abortSignal) →
          fetchServerSentEvents_connect r abortSignal
          = fetchHttpStream_connect r abortSignal)).
Proof.
  intros Hdone.
  unfold LineReader.fetchServerSentEvents_connect,
    LineReader.fetchHttpStream_connect.
  split.
  - intros e. destruct (ok r); cbn [negb]; [|done].
    by destruct (body r).
  - intros reads -> ->. cbn [negb]. split.
    + by rewrite omap_sse_lines.
    + intros Hplain. by rewrite omap_sse_lines, event_data_plain.
Qed.

End Events.

Lemma sse_adapter_is_http_adapter_on_event_data_witness :
  ex_parse (lit "[DONE]") = None
  ∧ LineReader.fetchServerSentEvents_connect unit tt latin1_step jsstring
      ex_parse ex_response None
    = LineReader.fetchHttpStream_connect unit tt latin1_step jsstring
        ex_parse ex_response None.
Proof.
  split; [reflexivity|].
  apply (proj2 (sse_adapter_is_http_adapter_on_event_data tt latin1_step
                  ex_parse ex_response None eq_refl)
           sample_reads1 eq_refl eq_refl).
  vm_compute. repeat constructor.
Defined.

(** The prefix is optional, and the end marker yields nothing. *)
Example sse_lines_with_and_without_prefix :
  omap (LineReader.sse_line jsstring ex_parse)
    [lit "data: {a}"; lit "{b}"; lit "data: [DONE]"; lit "[DONE]"; lit ": ping"]
  = [lit "{a}"; lit "{b}"].
Proof. by vm_compute. Qed.

End FetchProps.

(* ===================================================================== *)
(** * The OpenAI adapter's tools and request parameters *)
(* ===================================================================== *)

Module ToolsProps.
Import Tools.

Section Convert.

Context {params special error number any messages input : Type}
  (empty_params : params)
  (convert_special : string → Tool params → error + special)
  (convertMessagesToInput : messages → error + input).

Local Abbreviation functionTool := (functionTool params empty_params).
Local Abbreviation convert_tool :=
  (convert_tool params special error convert_special).
Local Abbreviation convertToolsToProviderFormat :=
  (convertToolsToProviderFormat params special error convert_special).
Local Abbreviation mapChatOptionsToOpenAI :=
  (mapChatOptionsToOpenAI params special error convert_special
     number any messages input convertMessagesToInput).
Local Abbreviation common_params :=
  (common_params params special number any messages input).

(** X14.  [functionTool] and [convertToolsToProviderFormat] are inverse on
    function tools: configurations whose names are not among the special
    tool names, made into tools by [functionTool], are converted without
    an exception back into exactly these configurations, in order, as flat
    function tools; nothing of the defaults that [functionTool] fills in
    ([description], [parameters]) reaches the provider. *)
Theorem function_tools_round_trip (configs : list (config params)) :
  Forall (λ c, cfg_name params c ∉ specialToolNames) configs →
  convertToolsToProviderFormat (functionTool <$> configs)
  = inr (Flat params special <$> configs).
Proof.
  induction 1 as [|c configs Hname _ IH]; [done|].
  rewrite !fmap_cons. cbn [Tools.convertToolsToProviderFormat].
  rewrite IH. unfold Tools.convert_tool.
  cbn [Tools.functionTool function fun_name].
  by rewrite bool_decide_eq_false_2.
Qed.

Lemma convertTools_length tools converted :
  convertToolsToProviderFormat tools = inr converted →
  length converted = length tools.
Proof.
  revert converted. induction tools as [|tool tools IH]; intros converted.
  - by intros [= <-].
  - cbn [Tools.convertToolsToProviderFormat].
    destruct (convert_tool tool) as [e|t]; [done|].
    destruct (convertToolsToProviderFormat tools) as [e|ts]; [done|].
    intros [= <-]. cbn [length]. by rewrite (IH ts).
Qed.

(** X15.  In the request parameters of [mapChatOptionsToOpenAI] provider
    options replace every common parameter they name ([model],
    [temperature], [max_output_tokens], [top_p], [metadata]) and add their
    other keys, but never [input] or [tools]: [input] is always the
    converted messages, and [tools] is the converted tools, one per given
    tool, or [undefined] when no tools were given. *)
Theorem provider_options_never_replace_input_and_tools
    (o : ChatCompletionOptions params special number any messages input)
    (requestParams : gmap string (option (param params special number any input))) :
  mapChatOptionsToOpenAI o = inr requestParams →
  (∃ i, convertMessagesToInput (co_messages _ _ _ _ _ _ o) = inr i
        ∧ requestParams !! "input" = Some (Some (PInput _ _ _ _ _ i)))
  ∧ match co_tools _ _ _ _ _ _ o with
    | Some tools =>
        ∃ converted,
          convertToolsToProviderFormat tools = inr converted
          ∧ length converted = length tools
          ∧ requestParams !! "tools" = Some (Some (PTools _ _ _ _ _ converted))
    | None => requestParams !! "tools" = Some None
    end
  ∧ (∀ key, key ≠ "input" → key ≠ "tools" →
       requestParams !! key
       = match co_providerOptions _ _ _ _ _ _ o ≫= (.!! key) with
         | Some value => Some value
         | None => common_params o !! key
         end).
Proof.
  unfold Tools.mapChatOptionsToOpenAI.
  destruct (convertMessagesToInput _) as [e|i]; [done|].
  assert (Hrest : ∀ tools key, key ≠ "input" → key ≠ "tools" →
    (<["tools" := tools]>
       (<["input" := Some (PInput _ _ _ _ _ i)]>
          (default ∅ (co_providerOptions _ _ _ _ _ _ o) ∪ common_params o))
     : gmap string (option (param params special number any input))) !! key
    = match co_providerOptions _ _ _ _ _ _ o ≫= (.!! key) with
      | Some value => Some value
      | None => common_params o !! key
      end).
  { intros tools key Hi Ht.
    rewrite !lookup_insert_ne, FetchProps.lookup_union_left_biased by done.
    destruct (co_providerOptions _ _ _ _ _ _ o) as [po|]; [done|].
    cbn [default mbind option_bind]. by rewrite lookup_empty. }
  destruct (co_tools _ _ _ _ _ _ o) as [tools|].
  - destruct (convertToolsToProviderFormat tools) as [e|converted] eqn:Hconv;
      [done|].
    intros [= <-]. split; [|split].
    + exists i. split; [done|].
      by rewrite lookup_insert_ne, lookup_insert_eq.
    + exists converted. split; [done|]. split.
      * by apply convertTools_length.
      * by rewrite lookup_insert_eq.
    + apply Hrest.
  - intros [= <-]. split; [|split].
    + exists i. split; [done|].
      by rewrite lookup_insert_ne, lookup_insert_eq.
    + by rewrite lookup_insert_eq.
    + apply Hrest.
Qed.

End Convert.

Lemma function_tools_round_trip_witness :
  Forall (λ c, cfg_name nat c ∉ specialToolNames) ex_configs
  ∧ Tools.convertToolsToProviderFormat nat unit unit (λ _ _, inl tt)
      (Tools.functionTool nat 0 <$> ex_configs)
    = inr (Flat nat unit <$> ex_configs).
Proof.
  assert (H : Forall (λ c, cfg_name nat c ∉ specialToolNames) ex_configs).
  { repeat constructor; apply (bool_decide_unpack _); reflexivity. }
  split; [exact H|].
  exact (function_tools_round_trip 0 (λ _ _, inl tt) ex_configs H).
Defined.

Lemma provider_options_never_replace_input_and_tools_witness :
  Tools.mapChatOptionsToOpenAI nat unit unit (λ _ _, inl tt)
    nat nat nat nat (λ m, inr (m + 1)) ex_options = inr ex_params
  ∧ ∃ i, (inr (co_messages _ _ _ _ _ _ ex_options + 1) : unit + nat) = inr i
         ∧ ex_params !! "input" = Some (Some (PInput _ _ _ _ _ i)).
Proof.
  assert (H : Tools.mapChatOptionsToOpenAI nat unit unit (λ _ _, inl tt)
    nat nat nat nat (λ m, inr (m + 1)) ex_options = inr ex_params)
    by (vm_compute; reflexivity).
  split; [exact H|].
  exact (proj1 (provider_options_never_replace_input_and_tools
                  (λ _ _, inl tt) (λ m, inr (m + 1)) ex_options ex_params H)).
Defined.

(** The model named in the provider options is the one requested; the
    input named there is not. *)
Example provider_model_wins_provider_input_loses :
  ex_params !! "model" = Some (Some (PString _ _ _ _ _ "gpt-5"))
  ∧ ex_params !! "input" = Some (Some (PInput _ _ _ _ _ 8))
  ∧ ex_params !! "store" = Some (Some (PAny _ _ _ _ _ 1))
  ∧ ex_params !! "temperature" = Some (Some (PNumber _ _ _ _ _ 1))
  ∧ ex_params !! "top_p" = Some None.
Proof. by vm_compute. Qed.

End ToolsProps.
